(** * twitter_dashboard.py: the data loader and what the dashboard does with it

    A shallow embedding of [load_data] and [main] of
    [src/twitter_dashboard.py], and the properties of the loading and
    aggregation pipeline.

    Conventions of the embedding.
    - A source file is either absent or holds a JSON document: [open]
      raises [FileNotFoundError] on an absent file and [json.load] returns
      the parsed document of a present one.
    - The two trend documents are arbitrary JSON trees and are read with
      Python's subscript, iteration and hashing rules, errors included.
    - The tweet corpus is taken at the schema [load_data] reads from it: a
      sequence of records with [retweet_count], [text], [lang] and an
      optional [retweeted_status].
    - Python [int] is [Z]. The counts of the corpus are [int64] values, and
      pandas holds them in [int64] columns: a group sum and the sum of two
      columns wrap around at 2^63, silently. Counts beyond that range are
      not what the frame is made for; the properties that need the range
      say so.
      pandas' [float64] column is IEEE binary64 as given by [SpecFloat]
      (precision 53, exponent bound 1024), rounding to nearest even.
    - Streamlit calls are events appended to a log, in the order they are
      made; a Python exception is an outcome of its own. A figure is built
      before it is handed to Streamlit, and Plotly refuses to build a
      scatter plot with a negative marker size.
    - [st.cache_data] only memoises the first result and is left out. *)

From Stdlib Require Import ZArith String List Bool Lia.
From Stdlib Require Import Floats.SpecFloat.
From stdpp Require Import base gmap sets list strings sorting.

Set Warnings "-register-all,-clear-no-such-hyp".

Local Open Scope string_scope.
Local Open Scope Z_scope.
Local Open Scope list_scope.

(** ** Python values *)

Module Py.

(** What [json.load] returns. An object is the resulting [dict], its keys are
    distinct and kept in insertion order. Numbers are integers. *)
Inductive json : Type :=
  | JNull
  | JBool (b : bool)
  | JInt (z : Z)
  | JStr (s : string)
  | JArr (items : list json)
  | JObj (fields : list (string * json)).

(** The hashable values a trend name may be, up to Python's [==]:
    [True == 1] and [False == 0] and hash alike, so a set holds one of them. *)
Inductive key : Type :=
  | KNone
  | KInt (z : Z)
  | KStr (s : string).

#[global] Instance key_eq_dec : EqDecision key.
Proof. solve_decision. Defined.

Definition key_to_sum (k : key) : unit + (Z + string) :=
  match k with
  | KNone => inl tt
  | KInt z => inr (inl z)
  | KStr s => inr (inr s)
  end.

Definition key_of_sum (x : unit + (Z + string)) : key :=
  match x with
  | inl _ => KNone
  | inr (inl z) => KInt z
  | inr (inr s) => KStr s
  end.

#[global] Instance key_countable : Countable key.
Proof.
  apply (inj_countable' key_to_sum key_of_sum).
  intros []; reflexivity.
Defined.

Inductive exn : Type :=
  | FileNotFoundError (path : string)
  | IndexError
  | KeyError (k : key)
  | TypeError
  | ValueError.

Inductive outcome (A : Type) : Type :=
  | Return (a : A)
  | Raise (e : exn).
Arguments Return {A} a.
Arguments Raise {A} e.

(** [v[i]] for a list index [i >= 0]. Indexing a [str] gives a [str] of one
    character; [load_data] only ever subscripts that with a key, which raises
    whatever the character is. *)
Definition getitem_int (v : json) (i : nat) : outcome json :=
  match v with
  | JArr items =>
      match nth_error items i with
      | Some x => Return x
      | None => Raise IndexError
      end
  | JObj _ => Raise (KeyError (KInt (Z.of_nat i)))
  | JStr s =>
      match String.get i s with
      | Some c => Return (JStr (String c EmptyString))
      | None => Raise IndexError
      end
  | JNull | JBool _ | JInt _ => Raise TypeError
  end.

Fixpoint assoc (k : string) (fields : list (string * json)) : option json :=
  match fields with
  | [] => None
  | (k', v) :: rest => if String.eqb k k' then Some v else assoc k rest
  end.

(** [v[k]] for a string key [k]. *)
Definition getitem_str (v : json) (k : string) : outcome json :=
  match v with
  | JObj fields =>
      match assoc k fields with
      | Some x => Return x
      | None => Raise (KeyError (KStr k))
      end
  | JArr _ | JStr _ | JNull | JBool _ | JInt _ => Raise TypeError
  end.

Fixpoint chars (s : string) : list json :=
  match s with
  | EmptyString => []
  | String c rest => JStr (String c EmptyString) :: chars rest
  end.

(** What [for x in v] runs through. *)
Definition iter (v : json) : outcome (list json) :=
  match v with
  | JArr items => Return items
  | JObj fields => Return (map (fun kv => JStr (fst kv)) fields)
  | JStr s => Return (chars s)
  | JNull | JBool _ | JInt _ => Raise TypeError
  end.

(** Putting a value in a [set]: lists and dicts are unhashable. *)
Definition hash_key (v : json) : outcome key :=
  match v with
  | JNull => Return KNone
  | JBool b => Return (KInt (if b then 1 else 0))
  | JInt z => Return (KInt z)
  | JStr s => Return (KStr s)
  | JArr _ | JObj _ => Raise TypeError
  end.

End Py.
Export Py.

(** ** Effects: the Streamlit log and exceptions *)

Record EngagementAggregate : Type := {
  agg_ScreenName : string;
  agg_Text : string;
  agg_Followers : Z;
  Total_Retweets : Z;
  Total_Favorites : Z;
  Total_Engagement : Z;
  Normalized_Engagement_Rate : spec_float
}.

Inductive chart : Type :=
  | VennDiagram (ww_only us_only common : Z)
  | EngagementScatter
  | EngagementBar
  | LanguageChoropleth
  | LanguageBar.

Inductive event : Type :=
  | st_set_page_config
  | st_title
  | st_markdown
  | st_info
  | st_error (msg : string)
  | st_header (title : string)
  | st_subheader (title : string)
  | st_expander_write (items : gset key)
  | st_dataframe (rows : list EngagementAggregate)
  | st_columns
  | st_caption
  | st_pyplot (c : chart)
  | st_plotly_chart (c : chart).

(** A computation: the events it logged, and how it ended. *)
Definition M (A : Type) : Type := (list event * outcome A)%type.

#[global] Instance M_ret : MRet M := fun A a => ([], Return a).

#[global] Instance M_bind : MBind M := fun A B f m =>
  match m with
  | (log, Return a) => let '(log', r) := f a in (log ++ log', r)
  | (log, Raise e) => (log, Raise e)
  end.

Definition raise {A} (e : exn) : M A := ([], Raise e).
Definition emit (ev : event) : M unit := ([ev], Return tt).
Definition lift {A} (o : outcome A) : M A := ([], o).

(** [try: body / except FileNotFoundError: handler], followed by the rest of
    the function. The handler of [load_data] ends in [return], so its value
    is the function's. *)
Definition try_except_FileNotFoundError {A B}
    (body : M A) (handler : M B) (rest : A -> M B) : M B :=
  match body with
  | (log, Return a) => let '(log', r) := rest a in (log ++ log', r)
  | (log, Raise (FileNotFoundError _)) =>
      let '(log', r) := handler in (log ++ log', r)
  | (log, Raise e) => (log, Raise e)
  end.

(** A list comprehension whose element expression may raise. *)
Fixpoint comprehension {A B} (f : A -> outcome B) (l : list A) : outcome (list B) :=
  match l with
  | [] => Return []
  | x :: rest =>
      match f x with
      | Raise e => Raise e
      | Return y =>
          match comprehension f rest with
          | Raise e => Raise e
          | Return ys => Return (y :: ys)
          end
      end
  end.

#[global] Instance outcome_ret : MRet outcome := fun A a => Return a.

#[global] Instance outcome_bind : MBind outcome := fun A B f o =>
  match o with
  | Return a => f a
  | Raise e => Raise e
  end.

(** ** The three sources *)

Record User : Type := {
  followers_count : Z;
  screen_name : string
}.

Record Status : Type := {
  favorite_count : Z;
  user : User
}.

(** A record of the tweet corpus; [retweeted_status] is [None] when the key
    is not in the record. *)
Record Tweet : Type := {
  retweet_count : Z;
  text : string;
  lang : string;
  retweeted_status : option Status
}.

(** The [datasets] folder: each file is absent ([None]) or holds a document. *)
Record filesystem : Type := {
  WWTrends : option json;
  USTrends : option json;
  WeLoveTheEarth : option (list Tweet)
}.

(** [with open(path) as f: json.load(f)] *)
Definition open_json {A} (path : string) (file : option A) : M A :=
  match file with
  | Some doc => mret doc
  | None => raise (FileNotFoundError path)
  end.

(** ** What [load_data] returns *)

Inductive pyval : Type :=
  | PNone
  | PSet (s : gset key)
  | PFrame (rows : list EngagementAggregate)
  | PCounts (rows : list (string * nat)).

Definition is_None (v : pyval) : bool :=
  match v with
  | PNone => true
  | _ => false
  end.

(** ** Trend sets *)

(** [set([trend['name'] for trend in doc[0]['trends']])] *)
Definition trend_names (doc : json) : outcome (gset key) :=
  first ← getitem_int doc 0;
  trends ← getitem_str first "trends";
  items ← iter trends;
  names ← comprehension (fun trend => getitem_str trend "name") items;
  keys ← comprehension hash_key names;
  mret (list_to_set keys).

(** ** The tweet activity frame *)

Record EngagementRow : Type := {
  Retweets : Z;
  Favorites : Z;
  Followers : Z;
  ScreenName : string;
  Text : string;
  Lang : string
}.

(** The loop over [tweets]: a record goes in only when it has a
    [retweeted_status]. *)
Fixpoint retweets_data (tweets : list Tweet) : list EngagementRow :=
  match tweets with
  | [] => []
  | tweet :: rest =>
      match retweeted_status tweet with
      | Some rs =>
          {| Retweets := retweet_count tweet;
             Favorites := favorite_count rs;
             Followers := followers_count (user rs);
             ScreenName := screen_name (user rs);
             Text := text tweet;
             Lang := lang tweet |} :: retweets_data rest
      | None => retweets_data rest
      end
  end.

(** *** int64 columns *)

(** A value of the [int64] range. *)
Definition int64 (z : Z) : Prop := - 2 ^ 63 <= z < 2 ^ 63.

(** What an [int64] cell holds of the integer [z]: arithmetic on the columns
    is modulo 2^64, two's complement. *)
Definition wrap64 (z : Z) : Z := (z + 2 ^ 63) mod 2 ^ 64 - 2 ^ 63.

Arguments wrap64 : simpl never.

(** *** groupby(['ScreenName', 'Text', 'Followers']).agg(sum).reset_index() *)

Definition group_key : Type := (string * string * Z)%type.

Definition key_of (r : EngagementRow) : group_key :=
  (ScreenName r, Text r, Followers r).

(** pandas sorts the groups by key, column after column. *)
Definition key_compare (a b : group_key) : comparison :=
  match String.compare a.1.1 b.1.1 with
  | Eq =>
      match String.compare a.1.2 b.1.2 with
      | Eq => Z.compare a.2 b.2
      | c => c
      end
  | c => c
  end.

Record Group : Type := {
  grp_key : group_key;
  sum_Retweets : Z;
  sum_Favorites : Z
}.

(** The sums of a group that has one row: the [int64] accumulators start at
    0. *)
Definition open_group (r : EngagementRow) : Group :=
  {| grp_key := key_of r;
     sum_Retweets := wrap64 (0 + Retweets r);
     sum_Favorites := wrap64 (0 + Favorites r) |}.

(** One row joins the running sums of its group, or opens the group at its
    place in key order. The sums are [int64] additions. *)
Fixpoint accumulate (r : EngagementRow) (groups : list Group) : list Group :=
  match groups with
  | [] => [open_group r]
  | g :: rest =>
      match key_compare (key_of r) (grp_key g) with
      | Eq =>
          {| grp_key := grp_key g;
             sum_Retweets := wrap64 (sum_Retweets g + Retweets r);
             sum_Favorites := wrap64 (sum_Favorites g + Favorites r) |} :: rest
      | Lt => open_group r :: g :: rest
      | Gt => g :: accumulate r rest
      end
  end.

Definition accumulate_all (rows : list EngagementRow) : list Group :=
  fold_left (fun groups r => accumulate r groups) rows [].

(** [pd.DataFrame([])] has no columns, so grouping it by column names raises
    [KeyError]. *)
Definition groupby_sum (df : list EngagementRow) : outcome (list Group) :=
  match df with
  | [] => Raise (KeyError (KStr "ScreenName"))
  | _ :: _ => Return (accumulate_all df)
  end.

(** *** The two derived columns *)

Definition prec : Z := 53.
Definition emax : Z := 1024.

(** int64 to float64 *)
Definition float_of_int (z : Z) : spec_float := binary_normalize prec emax z 0 false.

(** [(Total_Engagement / Followers) * 100] on float64 *)
Definition engagement_rate (total_engagement followers : Z) : spec_float :=
  SFmul prec emax
    (SFdiv prec emax (float_of_int total_engagement) (float_of_int followers))
    (float_of_int 100).

(** [Total_Engagement] is the sum of two [int64] columns. *)
Definition with_engagement (g : Group) : EngagementAggregate :=
  let total := wrap64 (sum_Retweets g + sum_Favorites g) in
  {| agg_ScreenName := (grp_key g).1.1;
     agg_Text := (grp_key g).1.2;
     agg_Followers := (grp_key g).2;
     Total_Retweets := sum_Retweets g;
     Total_Favorites := sum_Favorites g;
     Total_Engagement := total;
     Normalized_Engagement_Rate := engagement_rate total (grp_key g).2 |}.

(** *** Sorting in descending order *)

(** [x] goes behind every element that is not smaller: equal elements keep
    their order, as in Python's [sorted]. [sort_values] with its default
    quicksort makes no promise on the order of rows with equal keys, and
    pandas may return them in another order than this one; no property of
    the aggregated table below speaks of the order of rows with the same
    Followers. *)
Fixpoint insert_desc {A} (lt : A -> A -> bool) (x : A) (l : list A) : list A :=
  match l with
  | [] => [x]
  | y :: rest => if lt x y then y :: insert_desc lt x rest else x :: y :: rest
  end.

Definition sort_desc {A} (lt : A -> A -> bool) (l : list A) : list A :=
  foldr (insert_desc lt) [] l.

Definition by_Followers (a b : EngagementAggregate) : bool :=
  agg_Followers a <? agg_Followers b.

(** *** Counter(df['Lang']).most_common() *)

(** A [Counter] is a dict: a new key goes to the end. *)
Fixpoint count_up (x : string) (counter : list (string * nat)) : list (string * nat) :=
  match counter with
  | [] => [(x, 1%nat)]
  | (y, n) :: rest =>
      if String.eqb x y then (y, S n) :: rest else (y, n) :: count_up x rest
  end.

Definition Counter (xs : list string) : list (string * nat) :=
  fold_left (fun counter x => count_up x counter) xs [].

Definition by_count (a b : string * nat) : bool := (a.2 <? b.2)%nat.

(** [sorted(items, key=count, reverse=True)], which is stable. *)
Definition most_common (counter : list (string * nat)) : list (string * nat) :=
  sort_desc by_count counter.

(** ** load_data *)

Definition not_found_notice : string :=
  "Data files not found. Ensure 'WWTrends.json', 'USTrends.json', and 'WeLoveTheEarth.json' are in a 'datasets' folder.".

Definition load_data (fs : filesystem) : M (list pyval) :=
  try_except_FileNotFoundError
    (WW_trends ← open_json "datasets/WWTrends.json" (WWTrends fs);
     US_trends ← open_json "datasets/USTrends.json" (USTrends fs);
     tweets ← open_json "datasets/WeLoveTheEarth.json" (WeLoveTheEarth fs);
     mret (WW_trends, US_trends, tweets))
    (emit (st_error not_found_notice);;
     mret [PNone; PNone; PNone; PNone])
    (fun '(WW_trends, US_trends, tweets) =>
       world_trends ← lift (trend_names WW_trends);
       us_trends ← lift (trend_names US_trends);
       let common_trends := world_trends ∩ us_trends in
       let df := retweets_data tweets in
       groups ← lift (groupby_sum df);
       let df_agg := sort_desc by_Followers (map with_engagement groups) in
       let lang_counts := most_common (Counter (map Lang df)) in
       mret [PSet world_trends; PSet us_trends; PSet common_trends;
             PFrame df_agg; PCounts lang_counts]).

(** ** The visualisation functions

    Each one is the sequence of its Streamlit calls. What a chart shows is
    not modelled, only that the figure is built and handed to Streamlit. *)

Definition len (v : pyval) : outcome Z :=
  match v with
  | PSet s => Return (Z.of_nat (size s))
  | PFrame rows => Return (Z.of_nat (length rows))
  | PCounts rows => Return (Z.of_nat (length rows))
  | PNone => Raise TypeError
  end.

Definition expect_set (v : pyval) : outcome (gset key) :=
  match v with
  | PSet s => Return s
  | _ => Raise TypeError
  end.

Definition expect_frame (v : pyval) : outcome (list EngagementAggregate) :=
  match v with
  | PFrame rows => Return rows
  | _ => Raise TypeError
  end.

Definition expect_counts (v : pyval) : outcome (list (string * nat)) :=
  match v with
  | PCounts rows => Return rows
  | _ => Raise TypeError
  end.

Definition create_venn_diagram (world_trends us_trends common_trends : pyval) : M unit :=
  emit (st_subheader "Interactive Common Trends Visualization");;
  emit st_markdown;;
  n_world ← lift (len world_trends);
  n_common ← lift (len common_trends);
  let size_ww_only := n_world - n_common in
  n_us ← lift (len us_trends);
  let size_us_only := n_us - n_common in
  let size_common := n_common in
  emit (st_pyplot (VennDiagram size_ww_only size_us_only size_common));;
  items ← lift (expect_set common_trends);
  emit (st_expander_write items).

(** [px.scatter(df_agg, ..., size='Followers', ...)]: the Followers are the
    marker sizes, and Plotly raises [ValueError] on a size below 0. *)
Definition px_scatter (df_agg : list EngagementAggregate) : outcome chart :=
  if forallb (fun row => 0 <=? agg_Followers row) df_agg
  then Return EngagementScatter
  else Raise ValueError.

Definition create_engagement_scatter (df_agg : pyval) : M unit :=
  emit (st_subheader "Tweet Activity: Retweets vs. Favorites");;
  emit st_markdown;;
  rows ← lift (expect_frame df_agg);
  fig ← lift (px_scatter rows);
  emit (st_plotly_chart fig).

Definition create_engagement_bar_chart (df_agg : pyval) : M unit :=
  emit (st_subheader "Normalized Engagement Rate");;
  emit st_markdown;;
  _ ← lift (expect_frame df_agg);
  emit (st_plotly_chart EngagementBar).

Definition create_language_map_and_chart (lang_counts : pyval) : M unit :=
  emit (st_subheader "Trend Global Reach: Language Distribution");;
  _ ← lift (expect_counts lang_counts);
  emit st_markdown;;
  emit st_markdown;;
  emit (st_plotly_chart LanguageChoropleth);;
  emit st_markdown;;
  emit st_markdown;;
  emit (st_plotly_chart LanguageBar).

(** ** main *)

(** [a, b, c, d, e = t] raises [ValueError] unless [t] has five items. *)
Definition unpack5 (t : list pyval) : outcome (pyval * pyval * pyval * pyval * pyval) :=
  match t with
  | [a; b; c; d; e] => Return (a, b, c, d, e)
  | _ => Raise ValueError
  end.

Definition main (fs : filesystem) : M unit :=
  emit st_set_page_config;;
  emit st_title;;
  emit st_markdown;;
  emit st_info;;
  t ← load_data fs;
  '(world_trends, us_trends, common_trends, df_agg, lang_counts) ← lift (unpack5 t);
  if is_None world_trends then mret tt
  else
    emit (st_header "1. Global vs. Local Trend Overlap");;
    create_venn_diagram world_trends us_trends common_trends;;
    emit st_markdown;;
    emit (st_header "2. Celebrity Activity & Engagement");;
    rows ← lift (expect_frame df_agg);
    emit (st_dataframe (take 10 rows));;
    emit st_columns;;
    create_engagement_scatter df_agg;;
    create_engagement_bar_chart df_agg;;
    emit st_markdown;;
    emit (st_header "3. Global Language Reach");;
    create_language_map_and_chart lang_counts;;
    emit st_markdown;;
    emit st_caption.

(** What the page shows of the data: a chart or the table. *)
Definition renders (ev : event) : bool :=
  match ev with
  | st_pyplot _ | st_plotly_chart _ | st_dataframe _ => true
  | _ => false
  end.

Definition is_notice (ev : event) : bool :=
  match ev with
  | st_error _ => true
  | _ => false
  end.

(** ** The frames the charts are drawn from *)

Definition isna (x : spec_float) : bool :=
  match x with
  | S754_nan => true
  | _ => false
  end.

Definition by_rate (a b : EngagementAggregate) : bool :=
  SFltb (Normalized_Engagement_Rate a) (Normalized_Engagement_Rate b).

(** [df_agg.sort_values(by='Normalized_Engagement_Rate', ascending=False)] in
    [create_engagement_bar_chart]: the rows whose rate is a number in
    descending order, then the rows whose rate is NaN, as they stood. *)
Definition df_chart (df_agg : list EngagementAggregate) : list EngagementAggregate :=
  sort_desc by_rate
    (List.filter (fun row => negb (isna (Normalized_Engagement_Rate row))) df_agg)
  ++ List.filter (fun row => isna (Normalized_Engagement_Rate row)) df_agg.

(** The dict of [create_language_map_and_chart]. *)
Definition lang_to_country : list (string * string) :=
  [("en", "USA"); ("es", "Spain"); ("it", "Italy"); ("pl", "Poland");
   ("ja", "Japan"); ("fr", "France"); ("de", "Germany"); ("tr", "Turkey");
   ("ru", "Russia"); ("ko", "South Korea")].

Fixpoint dict_get (k : string) (d : list (string * string)) : option string :=
  match d with
  | [] => None
  | (k', v) :: rest => if String.eqb k k' then Some v else dict_get k rest
  end.

(** [x in d.keys()] *)
Definition isin (x : string) (d : list (string * string)) : bool :=
  existsb (String.eqb x) (map fst d).

(** A row of [df_map]; [Series.map] leaves NaN, here [None], where the dict
    has no entry. *)
Record MapRow : Type := {
  map_Lang : string;
  map_Count : nat;
  Country : option string
}.

(** [df_map = lang_counts[lang_counts['Lang'].isin(lang_to_country.keys())]]
    with its [Country] column. *)
Definition df_map (lang_counts : list (string * nat)) : list MapRow :=
  map (fun row => {| map_Lang := row.1; map_Count := row.2;
                     Country := dict_get row.1 lang_to_country |})
      (List.filter (fun row => isin row.1 lang_to_country) lang_counts).

(** * Vocabulary of the specification *)

(** ** Files and outcomes *)

(** A source file is missing. *)
Definition missing (fs : filesystem) : Prop :=
  WWTrends fs = None \/ USTrends fs = None \/ WeLoveTheEarth fs = None.

(** What [load_data] returns on the [FileNotFoundError] path. *)
Definition no_data : list pyval := [PNone; PNone; PNone; PNone].

(** What [main] has put on the page before it calls [load_data]. *)
Definition preamble : list event :=
  [st_set_page_config; st_title; st_markdown; st_info].

(** A trend document of the expected shape, with the names of its trends:
    the first element of the top-level sequence holds, under [trends], a
    sequence of objects that each have a string [name]. *)
Definition valid_trend_document (doc : json) (names : list string) : Prop :=
  exists fields rest items,
    doc = JArr (JObj fields :: rest) /\
    assoc "trends" fields = Some (JArr items) /\
    Forall2 (fun item n =>
               exists item_fields,
                 item = JObj item_fields /\ assoc "name" item_fields = Some (JStr n))
            items names.

(** A trend document that parses but has an empty top-level sequence, or
    whose first element is an object without the [trends] key. *)
Definition malformed (doc : json) : bool :=
  match doc with
  | JArr [] => true
  | JArr (JObj fields :: _) =>
      match assoc "trends" fields with
      | Some _ => false
      | None => true
      end
  | _ => false
  end.

(** The exception a malformed trend document ends in. *)
Definition malformed_error (doc : json) : exn :=
  match doc with
  | JArr [] => IndexError
  | _ => KeyError (KStr "trends")
  end.

(** ** Qualifying records and their groups *)

(** A record of the corpus qualifies when it carries a [retweeted_status]. *)
Definition qualifying (tweet : Tweet) : Prop := is_Some (retweeted_status tweet).

#[global] Instance qualifying_dec (tweet : Tweet) : Decision (qualifying tweet).
Proof. unfold qualifying. apply _. Defined.

(** The row a qualifying record puts in the frame. *)
Definition row_of (tweet : Tweet) (rs : Status) : EngagementRow :=
  {| Retweets := retweet_count tweet;
     Favorites := favorite_count rs;
     Followers := followers_count (user rs);
     ScreenName := screen_name (user rs);
     Text := text tweet;
     Lang := lang tweet |}.

Definition sumZ (l : list Z) : Z := foldr Z.add 0 l.

(** The qualifying records that fall in the group of key [k]. *)
Definition group_of (k : group_key) (df : list EngagementRow) : list EngagementRow :=
  filter (fun r => key_of r = k) df.

Definition agg_key (row : EngagementAggregate) : group_key :=
  (agg_ScreenName row, agg_Text row, agg_Followers row).

Definition key_lt (a b : group_key) : Prop := key_compare a b = Lt.

(** The counts of a row of the frame are [int64] values. *)
Definition int64_row (r : EngagementRow) : Prop :=
  int64 (Retweets r) /\ int64 (Favorites r) /\ int64 (Followers r).

(** [x] is what an [int64] cell holds of the integer [z]: the value of the
    range that differs from [z] by a multiple of 2^64. *)
Definition wraps_to (z x : Z) : Prop := int64 x /\ (x - z) mod 2 ^ 64 = 0.

(** The sum a running table holds for key [k], and what one row brings to
    the group of key [k], for either summed column. *)
Definition held (col : Group -> Z) (k : group_key) (groups : list Group) : Z :=
  sumZ (map col (filter (fun g => grp_key g = k) groups)).

Definition share (col : EngagementRow -> Z) (k : group_key) (r : EngagementRow) : Z :=
  if decide (key_of r = k) then col r else 0.

(** The steps of [load_data] from the frame [df] to [df_agg]. *)
Definition aggregated (df : list EngagementRow) : list EngagementAggregate :=
  sort_desc by_Followers (map with_engagement (accumulate_all df)).

(** [load_data] past the [try] block, the three documents in hand. *)
Definition process (WW_trends US_trends : json) (tweets : list Tweet) : M (list pyval) :=
  match trend_names WW_trends with
  | Raise e => ([], Raise e)
  | Return world_trends =>
      match trend_names US_trends with
      | Raise e => ([], Raise e)
      | Return us_trends =>
          match retweets_data tweets with
          | [] => ([], Raise (KeyError (KStr "ScreenName")))
          | df =>
              ([], Return [PSet world_trends; PSet us_trends;
                           PSet (world_trends ∩ us_trends);
                           PFrame (aggregated df);
                           PCounts (most_common (Counter (map Lang df)))])
          end
      end
  end.

(** Infinity or NaN. *)
Definition non_finite (x : spec_float) : bool :=
  match x with
  | S754_nan | S754_infinity _ => true
  | S754_zero _ | S754_finite _ _ _ => false
  end.

(** ** Language counts *)

(** How often [x] occurs in [l]. *)
Definition occurrences (x : string) (l : list string) : nat :=
  length (filter (fun y => y = x) l).

(** The position at which [x] is first met in [l]. *)
Fixpoint first_index (x : string) (l : list string) : option nat :=
  match l with
  | [] => None
  | y :: rest => if String.eqb x y then Some 0%nat else S <$> first_index x rest
  end.

(** [a] is met in [l] before [b] is. *)
Definition seen_before (l : list string) (a b : string) : Prop :=
  match first_index a l, first_index b l with
  | Some i, Some j => (i < j)%nat
  | _, _ => False
  end.

(** The count a counter holds for [x]. *)
Fixpoint count_of (x : string) (counter : list (string * nat)) : nat :=
  match counter with
  | [] => 0%nat
  | (y, n) :: rest => if String.eqb x y then n else count_of x rest
  end.

(** Sorting by a count: [smaller f] is the comparison, [stable_desc f R] the
    order of the result when the input is in the order [R]. *)
Definition smaller {A} (f : A -> nat) (a b : A) : bool := (f a <? f b)%nat.

Definition stable_desc {A} (f : A -> nat) (R : A -> A -> Prop) (a b : A) : Prop :=
  (f b < f a)%nat \/ (f a = f b /\ R a b).

(** The order of the language table: larger counts first, and among equal
    counts the language met first. *)
Definition table_order (langs : list string) (a b : string * nat) : Prop :=
  (b.2 < a.2)%nat \/ (a.2 = b.2 /\ seen_before langs a.1 b.1).

(** ** Scenarios *)

Definition retweet_of (sn tx : string) (followers favorites retweets : Z) (lg : string) : Tweet :=
  {| retweet_count := retweets; text := tx; lang := lg;
     retweeted_status :=
       Some {| favorite_count := favorites;
               user := {| followers_count := followers; screen_name := sn |} |} |}.

Definition original (tx lg : string) : Tweet :=
  {| retweet_count := 0; text := tx; lang := lg; retweeted_status := None |}.

Definition trend_doc (names : list string) : json :=
  JArr [JObj [("trends", JArr (map (fun n => JObj [("name", JStr n)]) names));
              ("as_of", JStr "2019-04-22")]].

(** Two retweets of the same tweet of account A, which has 100 followers,
    and a tweet that is no retweet. *)
Definition scenario_tweets : list Tweet :=
  [retweet_of "A" "T" 100 10 5 "en"; original "T" "en"; retweet_of "A" "T" 100 2 3 "en"].

Definition scenario_fs : filesystem :=
  {| WWTrends := Some (trend_doc ["a"; "b"; "c"]);
     USTrends := Some (trend_doc ["b"; "c"; "d"]);
     WeLoveTheEarth := Some scenario_tweets |}.

(** 20.0 is 5629499534213120 * 2^-48. *)
Definition scenario_row : EngagementAggregate :=
  {| agg_ScreenName := "A"; agg_Text := "T"; agg_Followers := 100;
     Total_Retweets := 8; Total_Favorites := 12; Total_Engagement := 20;
     Normalized_Engagement_Rate := S754_finite false 5629499534213120 (-48) |}.

(** Four retweets in en, en, es and und, and one tweet that is no retweet. *)
Definition language_tweets : list Tweet :=
  [retweet_of "A" "T" 100 10 5 "en"; retweet_of "B" "U" 7 1 1 "en";
   original "V" "fr"; retweet_of "A" "T" 100 2 3 "es"; retweet_of "C" "W" 0 0 0 "und"].

Definition language_fs : filesystem :=
  {| WWTrends := Some (trend_doc ["a"; "b"; "c"]);
     USTrends := Some (trend_doc ["b"; "c"; "d"]);
     WeLoveTheEarth := Some language_tweets |}.

Definition missing_corpus_fs : filesystem :=
  {| WWTrends := Some (trend_doc ["a"; "b"; "c"]);
     USTrends := Some (trend_doc ["b"; "c"; "d"]);
     WeLoveTheEarth := None |}.

Definition empty_trends_fs : filesystem :=
  {| WWTrends := Some (JArr []);
     USTrends := Some (trend_doc ["b"; "c"; "d"]);
     WeLoveTheEarth := Some scenario_tweets |}.

Definition keyless_trends_fs : filesystem :=
  {| WWTrends := Some (trend_doc ["a"; "b"; "c"]);
     USTrends := Some (JArr [JObj [("as_of", JStr "2019-04-22")]]);
     WeLoveTheEarth := Some scenario_tweets |}.

Definition no_retweet_fs : filesystem :=
  {| WWTrends := Some (trend_doc ["a"; "b"; "c"]);
     USTrends := Some (trend_doc ["b"; "c"; "d"]);
     WeLoveTheEarth := Some [original "T" "en"; original "U" "es"] |}.

(** Retweets of two accounts that have no followers. *)
Definition zero_followers_tweets : list Tweet :=
  [retweet_of "B" "T" 0 10 5 "en"; retweet_of "C" "U" 0 0 0 "es"].

Definition zero_followers_fs : filesystem :=
  {| WWTrends := Some (trend_doc ["a"; "b"; "c"]);
     USTrends := Some (trend_doc ["b"; "c"; "d"]);
     WeLoveTheEarth := Some zero_followers_tweets |}.

(** Two retweets of the same tweet, each with 2^62 retweets: together they
    have 2^63, one more than an [int64] holds. *)
Definition overflow_tweets : list Tweet :=
  [retweet_of "A" "T" 100 0 4611686018427387904 "en";
   retweet_of "A" "T" 100 0 4611686018427387904 "en"].

Definition overflow_fs : filesystem :=
  {| WWTrends := Some (trend_doc ["a"; "b"; "c"]);
     USTrends := Some (trend_doc ["b"; "c"; "d"]);
     WeLoveTheEarth := Some overflow_tweets |}.

(** One retweet, without favorites, of an account with three followers. *)
Definition thirds_tweets : list Tweet := [retweet_of "A" "T" 3 0 1 "en"].

Definition thirds_fs : filesystem :=
  {| WWTrends := Some (trend_doc ["a"; "b"; "c"]);
     USTrends := Some (trend_doc ["b"; "c"; "d"]);
     WeLoveTheEarth := Some thirds_tweets |}.

(** A retweet of an account whose [followers_count] is negative. *)
Definition negative_followers_tweets : list Tweet :=
  [retweet_of "A" "T" (-4) 10 5 "en"].

Definition negative_followers_fs : filesystem :=
  {| WWTrends := Some (trend_doc ["a"; "b"; "c"]);
     USTrends := Some (trend_doc ["b"; "c"; "d"]);
     WeLoveTheEarth := Some negative_followers_tweets |}.

(** ** The page *)

(** The six panels of a full page, in their order. *)
Definition panels (w u c : gset key) (rows : list EngagementAggregate) : list event :=
  [st_pyplot (VennDiagram (Z.of_nat (size w) - Z.of_nat (size c))
                          (Z.of_nat (size u) - Z.of_nat (size c))
                          (Z.of_nat (size c)));
   st_dataframe (take 10 rows);
   st_plotly_chart EngagementScatter; st_plotly_chart EngagementBar;
   st_plotly_chart LanguageChoropleth; st_plotly_chart LanguageBar].

(** What [main] has put on the page, the five products in hand, when it
    comes to build the scatter plot, and what it puts there from then on. *)
Definition page_before_scatter (w u c : gset key) (rows : list EngagementAggregate)
    : list event :=
  preamble ++
  [st_header "1. Global vs. Local Trend Overlap";
   st_subheader "Interactive Common Trends Visualization"; st_markdown;
   st_pyplot (VennDiagram (Z.of_nat (size w) - Z.of_nat (size c))
                          (Z.of_nat (size u) - Z.of_nat (size c))
                          (Z.of_nat (size c)));
   st_expander_write c;
   st_markdown;
   st_header "2. Celebrity Activity & Engagement";
   st_dataframe (take 10 rows);
   st_columns;
   st_subheader "Tweet Activity: Retweets vs. Favorites"; st_markdown].

Definition page_from_scatter : list event :=
  [st_plotly_chart EngagementScatter;
   st_subheader "Normalized Engagement Rate"; st_markdown;
   st_plotly_chart EngagementBar;
   st_markdown;
   st_header "3. Global Language Reach";
   st_subheader "Trend Global Reach: Language Distribution";
   st_markdown; st_markdown;
   st_plotly_chart LanguageChoropleth;
   st_markdown; st_markdown;
   st_plotly_chart LanguageBar;
   st_markdown; st_caption].

(** No row has a negative number of followers. *)
Definition marker_sizes (rows : list EngagementAggregate) : bool :=
  forallb (fun row => 0 <=? agg_Followers row) rows.

(** The same folder with another tweet corpus. *)
Definition with_corpus (fs : filesystem) (tweets : list Tweet) : filesystem :=
  {| WWTrends := WWTrends fs; USTrends := USTrends fs; WeLoveTheEarth := Some tweets |}.

(** A corpus for the charts: four accounts, one of them without followers
    and without engagement, in five languages. *)
Definition chart_tweets : list Tweet :=
  [retweet_of "A" "T" 100 10 5 "en"; retweet_of "B" "U" 7 1 1 "und";
   original "V" "fr"; retweet_of "A" "T" 100 2 3 "es"; retweet_of "C" "W" 0 0 0 "und";
   retweet_of "D" "X" 3 1 0 "ko"; retweet_of "B" "U" 7 0 2 "xx"].

Definition chart_fs : filesystem :=
  {| WWTrends := Some (trend_doc ["a"; "b"; "c"]);
     USTrends := Some (trend_doc ["b"; "c"; "d"]);
     WeLoveTheEarth := Some chart_tweets |}.


(** * Properties *)

(** ** The order on group keys *)

Section KeyOrder.

Lemma ascii_compare_refl (a : Ascii.ascii) : Ascii.compare a a = Eq.
Proof. unfold Ascii.compare. apply N.compare_refl. Qed.

Lemma ascii_compare_lt_trans (a b c : Ascii.ascii) :
  Ascii.compare a b = Lt -> Ascii.compare b c = Lt -> Ascii.compare a c = Lt.
Proof.
  unfold Ascii.compare. rewrite !N.compare_lt_iff. apply N.lt_trans.
Qed.

Lemma string_compare_refl (s : string) : String.compare s s = Eq.
Proof.
  induction s as [|a s IH]; simpl; [reflexivity|].
  now rewrite ascii_compare_refl.
Qed.

Lemma string_compare_eq (s t : string) : String.compare s t = Eq <-> s = t.
Proof.
  split; [apply String.compare_eq_iff|].
  intros ->. apply string_compare_refl.
Qed.

Lemma string_compare_lt_trans (s t u : string) :
  String.compare s t = Lt -> String.compare t u = Lt -> String.compare s u = Lt.
Proof.
  revert t u. induction s as [|a s IH]; intros [|b t] [|c u]; simpl; try congruence.
  destruct (Ascii.compare a b) eqn:Hab; try discriminate;
    destruct (Ascii.compare b c) eqn:Hbc; try discriminate; intros H1 H2.
  - apply Ascii.compare_eq_iff in Hab, Hbc. subst.
    rewrite ascii_compare_refl. eauto.
  - apply Ascii.compare_eq_iff in Hab. subst. now rewrite Hbc.
  - apply Ascii.compare_eq_iff in Hbc. subst. now rewrite Hab.
  - now rewrite (ascii_compare_lt_trans _ _ _ Hab Hbc).
Qed.

Lemma key_compare_eq (a b : group_key) : key_compare a b = Eq <-> a = b.
Proof.
  destruct a as [[a1 a2] a3], b as [[b1 b2] b3]. unfold key_compare; simpl.
  split.
  - destruct (String.compare a1 b1) eqn:H1; try discriminate.
    destruct (String.compare a2 b2) eqn:H2; try discriminate.
    intros H3. apply string_compare_eq in H1, H2. apply Z.compare_eq in H3.
    congruence.
  - intros [= -> -> ->]. rewrite !string_compare_refl. apply Z.compare_refl.
Qed.

Lemma key_compare_antisym (a b : group_key) :
  key_compare a b = CompOpp (key_compare b a).
Proof.
  destruct a as [[a1 a2] a3], b as [[b1 b2] b3]. unfold key_compare; simpl.
  rewrite (String.compare_antisym a1 b1), (String.compare_antisym a2 b2),
    (Z.compare_antisym b3 a3).
  destruct (String.compare b1 a1); simpl; try reflexivity.
  destruct (String.compare b2 a2); simpl; reflexivity.
Qed.

Lemma key_compare_lt_trans (a b c : group_key) :
  key_compare a b = Lt -> key_compare b c = Lt -> key_compare a c = Lt.
Proof.
  destruct a as [[a1 a2] a3], b as [[b1 b2] b3], c as [[c1 c2] c3].
  unfold key_compare; simpl.
  destruct (String.compare a1 b1) eqn:Hab1; try discriminate;
    destruct (String.compare b1 c1) eqn:Hbc1; try discriminate.
  - apply string_compare_eq in Hab1, Hbc1. subst. rewrite string_compare_refl.
    destruct (String.compare a2 b2) eqn:Hab2; try discriminate;
      destruct (String.compare b2 c2) eqn:Hbc2; try discriminate.
    + apply string_compare_eq in Hab2, Hbc2. subst. rewrite string_compare_refl.
      rewrite !Z.compare_lt_iff. apply Z.lt_trans.
    + apply string_compare_eq in Hab2. subst. now rewrite Hbc2.
    + apply string_compare_eq in Hbc2. subst. now rewrite Hab2.
    + now rewrite (string_compare_lt_trans _ _ _ Hab2 Hbc2).
  - apply string_compare_eq in Hab1. subst. now rewrite Hbc1.
  - apply string_compare_eq in Hbc1. subst. now rewrite Hab1.
  - now rewrite (string_compare_lt_trans _ _ _ Hab1 Hbc1).
Qed.

End KeyOrder.

(** ** The int64 range *)

Section Int64.

Lemma wrap64_int64 (z : Z) : int64 (wrap64 z).
Proof.
  unfold int64, wrap64.
  pose proof (Z.mod_pos_bound (z + 2 ^ 63) (2 ^ 64) eq_refl). lia.
Qed.

Lemma wrap64_id (z : Z) : int64 z -> wrap64 z = z.
Proof. unfold int64, wrap64. intros H. rewrite Z.mod_small; lia. Qed.

Lemma wrap64_divide (z : Z) : (2 ^ 64 | wrap64 z - z).
Proof.
  unfold wrap64. rewrite (Z.mod_eq (z + 2 ^ 63) (2 ^ 64)) by lia.
  exists (- ((z + 2 ^ 63) / 2 ^ 64)). ring.
Qed.

Lemma wrap64_eq (a b : Z) : (2 ^ 64 | a - b) -> wrap64 a = wrap64 b.
Proof.
  intros [q Hq]. unfold wrap64. f_equal.
  replace (a + 2 ^ 63) with (b + 2 ^ 63 + q * 2 ^ 64) by lia.
  apply Z_mod_plus_full.
Qed.

Lemma wrap64_add_l (a b : Z) : wrap64 (wrap64 a + b) = wrap64 (a + b).
Proof.
  apply wrap64_eq. destruct (wrap64_divide a) as [q Hq]. exists q. lia.
Qed.

Lemma wrap64_add_r (a b : Z) : wrap64 (a + wrap64 b) = wrap64 (a + b).
Proof.
  apply wrap64_eq. destruct (wrap64_divide b) as [q Hq]. exists q. lia.
Qed.

Lemma wraps_to_divide (z x : Z) : wraps_to z x <-> int64 x /\ (2 ^ 64 | x - z).
Proof.
  unfold wraps_to. now rewrite Z.mod_divide by lia.
Qed.

Lemma wraps_to_wrap64 (z : Z) : wraps_to z (wrap64 z).
Proof. apply wraps_to_divide. split; [apply wrap64_int64|apply wrap64_divide]. Qed.

(** A value of the range is held as it is. *)
Lemma wraps_to_exact (z x : Z) : wraps_to z x -> int64 z -> x = z.
Proof.
  rewrite wraps_to_divide. unfold int64. intros [Hx [q Hq]] Hz. lia.
Qed.

End Int64.

(** ** Grouping and summing *)

Section Aggregation.

Lemma map_fmap {A B} (f : A -> B) (l : list A) : map f l = f <$> l.
Proof. reflexivity. Qed.

Lemma sumZ_app (l1 l2 : list Z) : sumZ (l1 ++ l2) = sumZ l1 + sumZ l2.
Proof. induction l1 as [|x l1 IH]; simpl; lia. Qed.

Lemma sumZ_perm (l1 l2 : list Z) : l1 ≡ₚ l2 -> sumZ l1 = sumZ l2.
Proof. induction 1; simpl; lia. Qed.

Lemma key_lt_irrefl (k : group_key) : ¬ key_lt k k.
Proof.
  unfold key_lt. intros H.
  assert (key_compare k k = Eq) as E by now apply key_compare_eq.
  congruence.
Qed.

Lemma strictly_sorted_NoDup (l : list group_key) : StronglySorted key_lt l -> NoDup l.
Proof.
  induction 1 as [|k l Hs IH Hall]; constructor; [|assumption].
  intros Hin. rewrite Forall_forall in Hall.
  exact (key_lt_irrefl k (Hall k Hin)).
Qed.

(** The keys after one more row: the old ones and the row's. *)
Lemma accumulate_keys (r : EngagementRow) (groups : list Group) (k : group_key) :
  k ∈ map grp_key (accumulate r groups) <-> k = key_of r \/ k ∈ map grp_key groups.
Proof.
  induction groups as [|g rest IH]; simpl.
  - rewrite list_elem_of_singleton. split; [auto|]. intros [H|H]; [assumption|].
    inversion H.
  - destruct (key_compare (key_of r) (grp_key g)) eqn:Hc; simpl.
    + apply key_compare_eq in Hc. rewrite !elem_of_cons, Hc. tauto.
    + rewrite !elem_of_cons. tauto.
    + rewrite !elem_of_cons, IH. tauto.
Qed.

Lemma accumulate_sorted (r : EngagementRow) (groups : list Group) :
  StronglySorted key_lt (map grp_key groups) ->
  StronglySorted key_lt (map grp_key (accumulate r groups)).
Proof.
  induction groups as [|g rest IH]; simpl; intros Hs.
  - repeat constructor.
  - apply StronglySorted_inv in Hs as [Hrest Hall].
    destruct (key_compare (key_of r) (grp_key g)) eqn:Hc; simpl.
    + constructor; assumption.
    + constructor; [constructor; assumption|].
      constructor; [exact Hc|].
      eapply Forall_impl; [exact Hall|].
      intros k Hk. exact (key_compare_lt_trans _ _ _ Hc Hk).
    + constructor; [auto|].
      rewrite Forall_forall in Hall |- *. intros k Hk.
      apply accumulate_keys in Hk as [->|Hk]; [|auto].
      unfold key_lt. rewrite key_compare_antisym, Hc. reflexivity.
Qed.

Lemma held_cons (col : Group -> Z) (k : group_key) (g : Group) (groups : list Group) :
  held col k (g :: groups) =
    (if decide (grp_key g = k) then col g else 0) + held col k groups.
Proof.
  unfold held. rewrite filter_cons. destruct (decide (grp_key g = k)); simpl; lia.
Qed.

Lemma held_absent (col : Group -> Z) (k : group_key) (groups : list Group) :
  k ∉ map grp_key groups -> held col k groups = 0.
Proof.
  induction groups as [|g rest IH]; simpl; intros Hk; [reflexivity|].
  rewrite not_elem_of_cons in Hk. destruct Hk as [Hne Hk].
  rewrite held_cons, IH by assumption.
  destruct (decide (grp_key g = k)); [congruence|lia].
Qed.

Lemma held_unique (col : Group -> Z) (g : Group) (groups : list Group) :
  NoDup (map grp_key groups) -> g ∈ groups -> held col (grp_key g) groups = col g.
Proof.
  induction groups as [|g' rest IH]; simpl; intros Hnd Hin; [inversion Hin|].
  apply NoDup_cons in Hnd as [Hfresh Hnd]. rewrite held_cons.
  apply elem_of_cons in Hin as [->|Hin].
  - rewrite held_absent by assumption.
    destruct (decide (grp_key g' = grp_key g')); [lia|congruence].
  - rewrite IH by assumption.
    destruct (decide (grp_key g' = grp_key g)) as [E|]; [|lia].
    exfalso. apply Hfresh. rewrite E, map_fmap. now apply list_elem_of_fmap_2.
Qed.

Lemma sorted_head_fresh (k : group_key) (keys : list group_key) :
  StronglySorted key_lt (k :: keys) -> k ∉ keys.
Proof.
  intros Hs Hin. apply StronglySorted_inv in Hs as [_ Hall].
  rewrite Forall_forall in Hall. exact (key_lt_irrefl k (Hall k Hin)).
Qed.

Lemma sorted_head_below (k k' : group_key) (keys : list group_key) :
  key_lt k k' -> StronglySorted key_lt (k' :: keys) -> k ∉ k' :: keys.
Proof.
  intros Hlt Hs Hin. apply StronglySorted_inv in Hs as [_ Hall].
  rewrite Forall_forall in Hall.
  apply elem_of_cons in Hin as [->|Hin].
  - exact (key_lt_irrefl _ Hlt).
  - exact (key_lt_irrefl _ (key_compare_lt_trans _ _ _ Hlt (Hall _ Hin))).
Qed.

Lemma sumZ_zero {A} (l : list A) : sumZ (map (fun _ => 0) l) = 0.
Proof. induction l as [|x l IH]; simpl; lia. Qed.

Lemma sumZ_add {A} (f g : A -> Z) (l : list A) :
  sumZ (map (fun x => f x + g x) l) = sumZ (map f l) + sumZ (map g l).
Proof. induction l as [|x l IH]; simpl; lia. Qed.

(** A row brings its count to one key of a list of distinct keys. *)
Lemma share_total (col : EngagementRow -> Z) (r : EngagementRow) (keys : list group_key) :
  NoDup keys -> key_of r ∈ keys -> sumZ (map (fun k => share col k r) keys) = col r.
Proof.
  unfold share. induction 1 as [|k keys Hfresh Hnd IH]; intros Hin; [inversion Hin|].
  simpl. destruct (decide (key_of r = k)) as [E|Hne].
  - assert (sumZ (map (fun k0 => if decide (key_of r = k0) then col r else 0) keys) = 0)
      as ->; [|lia].
    transitivity (sumZ (map (fun _ : group_key => 0) keys)); [|apply sumZ_zero].
    f_equal. apply map_ext_in. intros k0 Hk0.
    destruct (decide (key_of r = k0)) as [E0|]; [|reflexivity].
    exfalso. apply Hfresh. rewrite <- E, E0. now apply list_elem_of_In.
  - apply elem_of_cons in Hin as [E|Hin]; [contradiction|]. rewrite IH by assumption. lia.
Qed.

(** The groups of a list of distinct keys that take in every row share out
    the column: their sums add up to the sum of the column. *)
Lemma group_sums_total (col : EngagementRow -> Z) (df : list EngagementRow)
    (keys : list group_key) :
  NoDup keys -> (forall r, r ∈ df -> key_of r ∈ keys) ->
  sumZ (map (fun k => sumZ (map col (group_of k df))) keys) = sumZ (map col df).
Proof.
  intros Hnd. induction df as [|r df IH]; intros Hall.
  - simpl. apply sumZ_zero.
  - assert (forall k, sumZ (map col (group_of k (r :: df))) =
                        share col k r + sumZ (map col (group_of k df))) as Hstep.
    { intros k. unfold group_of, share. rewrite filter_cons.
      destruct (decide (key_of r = k)); reflexivity. }
    erewrite map_ext by (intros k; apply Hstep).
    rewrite sumZ_add, share_total, IH; simpl; auto.
    + intros r' Hr'. apply Hall. now right.
    + apply Hall. left.
Qed.

(** *** All rows, from any running table *)

Lemma fold_keys (df : list EngagementRow) (groups : list Group) (k : group_key) :
  k ∈ map grp_key (fold_left (fun gs r => accumulate r gs) df groups) <->
  k ∈ map grp_key groups \/ exists r, r ∈ df /\ key_of r = k.
Proof.
  revert groups. induction df as [|r df IH]; intros groups; simpl.
  - split; [auto|]. intros [H|(r & Hr & _)]; [assumption|inversion Hr].
  - rewrite IH, accumulate_keys. split.
    + intros [[->|H]|(r' & Hr' & E)]; eauto.
      * right. exists r. split; [left|reflexivity].
      * right. exists r'. split; [now right|assumption].
    + intros [H|(r' & Hr' & E)]; [auto|].
      apply elem_of_cons in Hr' as [->|Hr']; [auto|].
      right. eauto.
Qed.

Lemma fold_sorted (df : list EngagementRow) (groups : list Group) :
  StronglySorted key_lt (map grp_key groups) ->
  StronglySorted key_lt (map grp_key (fold_left (fun gs r => accumulate r gs) df groups)).
Proof.
  revert groups. induction df as [|r df IH]; intros groups Hs; simpl; [assumption|].
  apply IH, accumulate_sorted, Hs.
Qed.

(** *** The grouped table *)

Lemma accumulate_all_NoDup (df : list EngagementRow) :
  NoDup (map grp_key (accumulate_all df)).
Proof. apply strictly_sorted_NoDup, fold_sorted. constructor. Qed.

Lemma accumulate_all_keys (df : list EngagementRow) (k : group_key) :
  k ∈ map grp_key (accumulate_all df) <-> exists r, r ∈ df /\ key_of r = k.
Proof.
  unfold accumulate_all. rewrite fold_keys. simpl. split; [|auto].
  intros [H|H]; [inversion H|assumption].
Qed.

(** *** A summed column

    Both summed columns go through [accumulate] alike: a group is opened
    with the count of its first row and takes in the count of every other
    row, by [int64] additions. *)

Section Column.

Context (col_g : Group -> Z) (col_r : EngagementRow -> Z).

Hypothesis col_open : forall r, col_g (open_group r) = wrap64 (0 + col_r r).

Hypothesis col_join : forall g r,
  col_g {| grp_key := grp_key g;
           sum_Retweets := wrap64 (sum_Retweets g + Retweets r);
           sum_Favorites := wrap64 (sum_Favorites g + Favorites r) |}
    = wrap64 (col_g g + col_r r).

Lemma accumulate_held (r : EngagementRow) (groups : list Group) (k : group_key) :
  StronglySorted key_lt (map grp_key groups) ->
  held col_g k (accumulate r groups) =
    if decide (key_of r = k) then wrap64 (held col_g k groups + col_r r)
    else held col_g k groups.
Proof.
  induction groups as [|g rest IH]; intros Hs.
  - cbn [accumulate]. rewrite held_cons, col_open.
    change (grp_key (open_group r)) with (key_of r).
    unfold held; simpl. destruct (decide (key_of r = k)); lia.
  - cbn [accumulate].
    destruct (key_compare (key_of r) (grp_key g)) eqn:Hc.
    + apply key_compare_eq in Hc. rewrite !held_cons, col_join. cbn [grp_key].
      rewrite <- Hc.
      destruct (decide (key_of r = k)) as [E|]; [|reflexivity].
      rewrite (held_absent col_g k rest).
      * now rewrite !Z.add_0_r.
      * rewrite <- E, Hc. exact (sorted_head_fresh _ _ Hs).
    + rewrite (held_cons col_g k (open_group r)), col_open.
      change (grp_key (open_group r)) with (key_of r).
      destruct (decide (key_of r = k)) as [E|]; [|lia].
      rewrite (held_absent col_g k (g :: rest)); [lia|].
      rewrite <- E. exact (sorted_head_below _ _ _ Hc Hs).
    + simpl in Hs. apply StronglySorted_inv in Hs as [Hs _].
      rewrite !held_cons, (IH Hs).
      destruct (decide (key_of r = k)) as [E|]; [|reflexivity].
      destruct (decide (grp_key g = k)) as [E'|]; [|now rewrite !Z.add_0_l].
      rewrite E, E' in Hc.
      assert (key_compare k k = Eq) as Hrefl by now apply key_compare_eq.
      congruence.
Qed.

Lemma fold_held (df : list EngagementRow) (groups : list Group) (k : group_key) :
  StronglySorted key_lt (map grp_key groups) ->
  held col_g k (fold_left (fun gs r => accumulate r gs) df groups) =
    match group_of k df with
    | [] => held col_g k groups
    | _ :: _ => wrap64 (held col_g k groups + sumZ (map col_r (group_of k df)))
    end.
Proof.
  revert groups. induction df as [|r df IH]; intros groups Hs; [reflexivity|].
  cbn [fold_left]. rewrite IH by now apply accumulate_sorted.
  rewrite accumulate_held by assumption.
  unfold group_of. rewrite filter_cons.
  destruct (decide (key_of r = k)) as [E|]; [|reflexivity].
  destruct (filter (fun r0 => key_of r0 = k) df) as [|r' rest].
  - f_equal. simpl. lia.
  - rewrite wrap64_add_l. f_equal. simpl. lia.
Qed.

(** The sum the grouped table holds for a key is the sum of its group, as
    [int64] additions leave it. *)
Lemma accumulate_all_held (df : list EngagementRow) (k : group_key) :
  held col_g k (accumulate_all df) = wrap64 (sumZ (map col_r (group_of k df))).
Proof.
  unfold accumulate_all. rewrite fold_held by constructor.
  destruct (group_of k df) as [|r rest]; [reflexivity|].
  unfold held. simpl. f_equal.
Qed.

Lemma accumulate_all_col (df : list EngagementRow) (g : Group) :
  g ∈ accumulate_all df ->
  col_g g = wrap64 (sumZ (map col_r (group_of (grp_key g) df))).
Proof.
  intros Hg.
  rewrite <- (held_unique col_g g (accumulate_all df)) by auto using accumulate_all_NoDup.
  apply accumulate_all_held.
Qed.

(** The column of the grouped table and the column of the frame add up to
    the same, up to a multiple of 2^64. *)
Lemma accumulate_total (r : EngagementRow) (groups : list Group) :
  (2 ^ 64 | sumZ (map col_g (accumulate r groups)) - (sumZ (map col_g groups) + col_r r)).
Proof.
  induction groups as [|g rest IH]; cbn [accumulate].
  - simpl. rewrite col_open.
    destruct (wrap64_divide (0 + col_r r)) as [q Hq]. exists q. lia.
  - destruct (key_compare (key_of r) (grp_key g)); simpl.
    + rewrite col_join.
      destruct (wrap64_divide (col_g g + col_r r)) as [q Hq]. exists q. lia.
    + rewrite col_open.
      destruct (wrap64_divide (0 + col_r r)) as [q Hq]. exists q. lia.
    + destruct IH as [q Hq]. exists q. lia.
Qed.

Lemma fold_total (df : list EngagementRow) (groups : list Group) :
  (2 ^ 64 | sumZ (map col_g (fold_left (fun gs r => accumulate r gs) df groups))
            - (sumZ (map col_g groups) + sumZ (map col_r df))).
Proof.
  revert groups. induction df as [|r df IH]; intros groups; cbn [fold_left].
  - exists 0. simpl. lia.
  - destruct (IH (accumulate r groups)) as [q1 H1].
    destruct (accumulate_total r groups) as [q2 H2].
    exists (q1 + q2). simpl. lia.
Qed.

Lemma accumulate_all_total (df : list EngagementRow) :
  (2 ^ 64 | sumZ (map col_g (accumulate_all df)) - sumZ (map col_r df)).
Proof.
  destruct (fold_total df []) as [q Hq]. exists q. unfold accumulate_all.
  simpl in Hq. lia.
Qed.

(** When no group sum leaves the [int64] range the column of the grouped
    table adds up to the column of the frame. *)
Lemma accumulate_all_total_exact (df : list EngagementRow) :
  (forall k, int64 (sumZ (map col_r (group_of k df)))) ->
  sumZ (map col_g (accumulate_all df)) = sumZ (map col_r df).
Proof.
  intros Hrange.
  rewrite <- (group_sums_total col_r df (map grp_key (accumulate_all df))).
  - rewrite map_map. f_equal. apply map_ext_in. intros g Hg.
    rewrite (accumulate_all_col df g) by now apply list_elem_of_In.
    apply wrap64_id, Hrange.
  - apply accumulate_all_NoDup.
  - intros r Hr. apply accumulate_all_keys. eauto.
Qed.

End Column.

Lemma accumulate_all_Retweets (df : list EngagementRow) (g : Group) :
  g ∈ accumulate_all df ->
  sum_Retweets g = wrap64 (sumZ (map Retweets (group_of (grp_key g) df))).
Proof. now apply (accumulate_all_col sum_Retweets Retweets). Qed.

Lemma accumulate_all_Favorites (df : list EngagementRow) (g : Group) :
  g ∈ accumulate_all df ->
  sum_Favorites g = wrap64 (sumZ (map Favorites (group_of (grp_key g) df))).
Proof. now apply (accumulate_all_col sum_Favorites Favorites). Qed.

End Aggregation.

(** ** Sorting *)

Section Sorting.

Context {A : Type} (lt : A -> A -> bool).

Lemma insert_desc_perm (x : A) (l : list A) : insert_desc lt x l ≡ₚ x :: l.
Proof.
  induction l as [|y l IH]; simpl; [reflexivity|].
  destruct (lt x y); [|reflexivity].
  rewrite IH. apply Permutation_swap.
Qed.

Lemma sort_desc_perm (l : list A) : sort_desc lt l ≡ₚ l.
Proof.
  unfold sort_desc. induction l as [|x l IH]; simpl; [reflexivity|].
  rewrite insert_desc_perm. now constructor.
Qed.

End Sorting.

(** ** The two ways through [load_data] *)

Section LoadData.

Lemma load_data_missing (fs : filesystem) :
  missing fs -> load_data fs = ([st_error not_found_notice], Return no_data).
Proof.
  unfold missing, load_data. destruct fs as [[ww|] [us|] [tweets|]]; simpl;
    intros [H|[H|H]]; try discriminate; reflexivity.
Qed.

Lemma load_data_present (fs : filesystem) (WW US : json) (tweets : list Tweet) :
  WWTrends fs = Some WW -> USTrends fs = Some US -> WeLoveTheEarth fs = Some tweets ->
  load_data fs = process WW US tweets.
Proof.
  destruct fs as [ww us tw]; simpl. intros -> -> ->.
  unfold load_data, process, aggregated; simpl.
  destruct (trend_names WW); simpl; [|reflexivity].
  destruct (trend_names US); simpl; [|reflexivity].
  destruct (retweets_data tweets); reflexivity.
Qed.

Lemma load_data_cases (fs : filesystem) :
  load_data fs = ([st_error not_found_notice], Return no_data) /\ missing fs \/
  exists WW US tweets,
    WWTrends fs = Some WW /\ USTrends fs = Some US /\ WeLoveTheEarth fs = Some tweets /\
    load_data fs = process WW US tweets.
Proof.
  destruct (WWTrends fs) as [WW|] eqn:H1;
    [destruct (USTrends fs) as [US|] eqn:H2;
      [destruct (WeLoveTheEarth fs) as [tweets|] eqn:H3|]|].
  - right. exists WW, US, tweets. auto using load_data_present.
  - left. split; [apply load_data_missing|]; unfold missing; auto.
  - left. split; [apply load_data_missing|]; unfold missing; auto.
  - left. split; [apply load_data_missing|]; unfold missing; auto.
Qed.

(** A returned five-tuple comes from the second way, with a frame that is not
    empty. *)
Lemma load_data_products (fs : filesystem) (log : list event) (w u c df lc : pyval) :
  load_data fs = (log, Return [w; u; c; df; lc]) ->
  exists WW US tweets world_trends us_trends,
    WWTrends fs = Some WW /\ USTrends fs = Some US /\ WeLoveTheEarth fs = Some tweets /\
    trend_names WW = Return world_trends /\ trend_names US = Return us_trends /\
    retweets_data tweets <> [] /\
    log = [] /\ w = PSet world_trends /\ u = PSet us_trends /\
    c = PSet (world_trends ∩ us_trends) /\
    df = PFrame (aggregated (retweets_data tweets)) /\
    lc = PCounts (most_common (Counter (map Lang (retweets_data tweets)))).
Proof.
  intros H.
  destruct (load_data_cases fs) as [[E _]|(WW & US & tweets & H1 & H2 & H3 & E)];
    rewrite E in H; [discriminate|].
  exists WW, US, tweets. unfold process in H.
  destruct (trend_names WW) as [world_trends|]; [|discriminate].
  destruct (trend_names US) as [us_trends|]; [|discriminate].
  exists world_trends, us_trends.
  destruct (retweets_data tweets) as [|r df'] eqn:Hdf; [discriminate|].
  injection H as <- <- <- <- <- <-. repeat split; auto.
Qed.

End LoadData.

(** ** The aggregated table *)

Section AggregatedTable.

Lemma agg_key_with_engagement (g : Group) : agg_key (with_engagement g) = grp_key g.
Proof. destruct g as [[[sn tx] fo] rt fv]. reflexivity. Qed.

Lemma aggregated_perm (df : list EngagementRow) :
  aggregated df ≡ₚ map with_engagement (accumulate_all df).
Proof. apply sort_desc_perm. Qed.

Lemma aggregated_keys_perm (df : list EngagementRow) :
  map agg_key (aggregated df) ≡ₚ map grp_key (accumulate_all df).
Proof.
  rewrite (Permutation_map agg_key (aggregated_perm df)), map_map.
  erewrite map_ext; [reflexivity|]. apply agg_key_with_engagement.
Qed.

Lemma aggregated_row (df : list EngagementRow) (row : EngagementAggregate) :
  row ∈ aggregated df ->
  exists g, g ∈ accumulate_all df /\ row = with_engagement g.
Proof.
  rewrite aggregated_perm, map_fmap, list_elem_of_fmap.
  intros (g & -> & Hg). eauto.
Qed.

(** A column of the frame is the field of the qualifying records. *)
Ltac column_of_qualifying tweets :=
  induction tweets as [|t tweets IH]; simpl; [reflexivity|];
  rewrite filter_cons;
  destruct (decide (qualifying t)) as [[rs Hrs]|Hno];
  [ rewrite Hrs; simpl; now rewrite IH
  | destruct (retweeted_status t) as [rs|] eqn:E; [|exact IH];
    destruct Hno; unfold qualifying; rewrite E; eauto ].

Lemma retweets_data_Retweets (tweets : list Tweet) :
  map Retweets (retweets_data tweets) = map retweet_count (filter qualifying tweets).
Proof. column_of_qualifying tweets. Qed.

Lemma retweets_data_Lang (tweets : list Tweet) :
  map Lang (retweets_data tweets) = map lang (filter qualifying tweets).
Proof. column_of_qualifying tweets. Qed.

Lemma Total_Engagement_wraps (g : Group) :
  wraps_to (Total_Retweets (with_engagement g) + Total_Favorites (with_engagement g))
           (Total_Engagement (with_engagement g)).
Proof. apply wraps_to_wrap64. Qed.

Lemma Total_Engagement_group (df : list EngagementRow) (g : Group) :
  g ∈ accumulate_all df ->
  Total_Engagement (with_engagement g) =
    wrap64 (sumZ (map Retweets (group_of (grp_key g) df)) +
            sumZ (map Favorites (group_of (grp_key g) df))).
Proof.
  intros Hg. cbn [with_engagement Total_Engagement].
  rewrite (accumulate_all_Retweets df g Hg), (accumulate_all_Favorites df g Hg).
  now rewrite wrap64_add_l, wrap64_add_r.
Qed.

(** C1, as the code has it. [load_data] groups the qualifying records by
    (ScreenName, Text, Followers): the aggregated table has one row per key
    that occurs among them and no other row. The counts being [int64] values,
    Total_Retweets and Total_Favorites of a row are the sums of Retweets and
    Favorites over the records of the group as an [int64] holds them, and
    Total_Engagement is their sum, held likewise: each is the sum itself
    when that lies in the range, and a sum that leaves the range wraps
    around. Normalized_Engagement_Rate is computed on float64 in the order
    (Total_Engagement / Followers) * 100: both integers are converted, and
    the quotient is rounded before it is multiplied by 100. Two qualifying
    records of account A, text T, 100 followers, with 5 retweets and 10
    favorites and with 3 retweets and 2 favorites, give the single row
    8, 12, 20, 20.0. *)
Theorem aggregation_by_composite_key
    (fs : filesystem) (tweets : list Tweet) (log : list event)
    (w u c lc : pyval) (rows : list EngagementAggregate) :
  WeLoveTheEarth fs = Some tweets ->
  load_data fs = (log, Return [w; u; c; PFrame rows; lc]) ->
  Forall int64_row (retweets_data tweets) ->
  let df := retweets_data tweets in
  NoDup (map agg_key rows) /\
  (forall k, k ∈ map agg_key rows <-> exists r, r ∈ df /\ key_of r = k) /\
  (forall row, row ∈ rows ->
     let retweets := sumZ (map Retweets (group_of (agg_key row) df)) in
     let favorites := sumZ (map Favorites (group_of (agg_key row) df)) in
     wraps_to retweets (Total_Retweets row) /\
     wraps_to favorites (Total_Favorites row) /\
     wraps_to (Total_Retweets row + Total_Favorites row) (Total_Engagement row) /\
     (int64 retweets -> Total_Retweets row = retweets) /\
     (int64 favorites -> Total_Favorites row = favorites) /\
     (int64 (retweets + favorites) -> Total_Engagement row = retweets + favorites) /\
     Normalized_Engagement_Rate row =
       SFmul 53 1024
         (SFdiv 53 1024 (binary_normalize 53 1024 (Total_Engagement row) 0 false)
                        (binary_normalize 53 1024 (agg_Followers row) 0 false))
         (binary_normalize 53 1024 100 0 false)) /\
  (forall l1 l2,
     df = [ {| Retweets := 5; Favorites := 10; Followers := 100;
               ScreenName := "A"; Text := "T"; Lang := l1 |};
            {| Retweets := 3; Favorites := 2; Followers := 100;
               ScreenName := "A"; Text := "T"; Lang := l2 |} ] ->
     rows = [ {| agg_ScreenName := "A"; agg_Text := "T"; agg_Followers := 100;
                 Total_Retweets := 8; Total_Favorites := 12; Total_Engagement := 20;
                 Normalized_Engagement_Rate :=
                   S754_finite false 5629499534213120 (-48) |} ]).
Proof.
  intros Htweets Hload _ df.
  apply load_data_products in Hload
    as (WW & US & tweets' & wt & ut & _ & _ & Ht & _ & _ & _ & _ & _ & _ & _ & Hrows & _).
  rewrite Htweets in Ht. injection Ht as <-. injection Hrows as ->.
  fold df. split; [|split; [|split]].
  - rewrite aggregated_keys_perm. apply accumulate_all_NoDup.
  - intros k. rewrite aggregated_keys_perm. apply accumulate_all_keys.
  - intros row Hrow. apply aggregated_row in Hrow as (g & Hg & ->).
    rewrite agg_key_with_engagement.
    pose proof (accumulate_all_Retweets df g Hg) as HR.
    pose proof (accumulate_all_Favorites df g Hg) as HF.
    pose proof (Total_Engagement_group df g Hg) as HE.
    cbv zeta. split_and!.
    + cbn [with_engagement Total_Retweets]. rewrite HR. apply wraps_to_wrap64.
    + cbn [with_engagement Total_Favorites]. rewrite HF. apply wraps_to_wrap64.
    + apply Total_Engagement_wraps.
    + intros Hrange. cbn [with_engagement Total_Retweets]. rewrite HR.
      now apply wrap64_id.
    + intros Hrange. cbn [with_engagement Total_Favorites]. rewrite HF.
      now apply wrap64_id.
    + intros Hrange. rewrite HE. now apply wrap64_id.
    + reflexivity.
  - intros l1 l2 ->. reflexivity.
Qed.

Lemma aggregation_by_composite_key_witness :
  aggregated (retweets_data scenario_tweets) = [scenario_row].
Proof.
  assert (Forall int64_row (retweets_data scenario_tweets)) as Hrange.
  { repeat constructor; simpl; lia. }
  destruct (aggregation_by_composite_key scenario_fs scenario_tweets []
              _ _ _ _ (aggregated (retweets_data scenario_tweets)) eq_refl eq_refl Hrange)
    as (_ & _ & _ & H).
  exact (H "en" "en" eq_refl).
Defined.

(** C1, as stated, fails twice. Two retweets of one tweet with 2^62 retweets
    each make one group whose Retweets add up to 2^63, and its row has
    Total_Retweets = -2^63 = Total_Engagement: the [int64] sum has wrapped.
    And one retweet of an account with three followers has the rate
    33.33333333333333 (4691249611844266 * 2^-47), the product of the rounded
    third and 100, where 100 * 1 / 3 on float64 is 33.333333333333336
    (4691249611844267 * 2^-47), which is also nearer to 100/3. *)
Lemma aggregation_by_composite_key_counterexample :
  (exists w u c lc row,
     load_data overflow_fs = ([], Return [w; u; c; PFrame [row]; lc]) /\
     Forall int64_row (retweets_data overflow_tweets) /\
     sumZ (map Retweets (group_of (agg_key row) (retweets_data overflow_tweets))) = 2 ^ 63 /\
     Total_Retweets row = - 2 ^ 63 /\
     Total_Favorites row = 0 /\
     Total_Engagement row = - 2 ^ 63) /\
  (exists w u c lc row,
     load_data thirds_fs = ([], Return [w; u; c; PFrame [row]; lc]) /\
     Total_Engagement row = 1 /\ agg_Followers row = 3 /\
     Normalized_Engagement_Rate row = S754_finite false 4691249611844266 (-47) /\
     SFdiv 53 1024
       (SFmul 53 1024 (binary_normalize 53 1024 100 0 false)
                      (binary_normalize 53 1024 1 0 false))
       (binary_normalize 53 1024 3 0 false)
       = S754_finite false 4691249611844267 (-47) /\
     Z.abs (3 * 4691249611844267 - 100 * 1 * 2 ^ 47)
       < Z.abs (3 * 4691249611844266 - 100 * 1 * 2 ^ 47)).
Proof.
  split.
  - do 5 eexists. split; [reflexivity|]. split_and!; try reflexivity.
    repeat constructor; simpl; lia.
  - do 5 eexists. split; [reflexivity|]. split_and!; reflexivity.
Qed.

(** C6, as the code has it. The retweet counts being [int64] values, the
    Total_Retweets of the aggregated table are [int64] values that add up to
    the retweet counts of the qualifying records of the corpus up to a
    multiple of 2^64, and to exactly that sum when the Retweets of no group
    add up to a value outside the [int64] range: then no record is lost and
    none is counted twice. *)
Theorem total_retweets_conserved
    (fs : filesystem) (tweets : list Tweet) (log : list event)
    (w u c lc : pyval) (rows : list EngagementAggregate) :
  WeLoveTheEarth fs = Some tweets ->
  load_data fs = (log, Return [w; u; c; PFrame rows; lc]) ->
  Forall (fun tweet => int64 (retweet_count tweet)) (filter qualifying tweets) ->
  let raw := sumZ (map retweet_count (filter qualifying tweets)) in
  Forall (fun row => int64 (Total_Retweets row)) rows /\
  (sumZ (map Total_Retweets rows) - raw) mod 2 ^ 64 = 0 /\
  ((forall k, int64 (sumZ (map Retweets (group_of k (retweets_data tweets))))) ->
   sumZ (map Total_Retweets rows) = raw).
Proof.
  intros Htweets Hload _ raw.
  apply load_data_products in Hload
    as (WW & US & tweets' & wt & ut & _ & _ & Ht & _ & _ & _ & _ & _ & _ & _ & Hrows & _).
  rewrite Htweets in Ht. injection Ht as <-. injection Hrows as ->.
  unfold raw. rewrite <- retweets_data_Retweets.
  assert (sumZ (map Total_Retweets (aggregated (retweets_data tweets))) =
            sumZ (map sum_Retweets (accumulate_all (retweets_data tweets)))) as ->.
  { rewrite (sumZ_perm _ _ (Permutation_map Total_Retweets (aggregated_perm _))).
    now rewrite map_map. }
  split_and!.
  - rewrite Forall_forall. intros row Hrow.
    apply aggregated_row in Hrow as (g & Hg & ->).
    cbn [with_engagement Total_Retweets].
    rewrite (accumulate_all_Retweets _ g Hg). apply wrap64_int64.
  - apply Z.mod_divide; [lia|].
    now apply (accumulate_all_total sum_Retweets Retweets).
  - now apply (accumulate_all_total_exact sum_Retweets Retweets).
Qed.

Lemma total_retweets_conserved_witness :
  sumZ (map Total_Retweets (aggregated (retweets_data scenario_tweets))) = 8.
Proof.
  assert (Forall (fun tweet => int64 (retweet_count tweet))
            (filter qualifying scenario_tweets)) as Hrange.
  { repeat constructor; simpl; lia. }
  refine (proj2 (proj2 (total_retweets_conserved scenario_fs scenario_tweets []
                          _ _ _ _ (aggregated (retweets_data scenario_tweets))
                          eq_refl eq_refl Hrange)) _).
  intros k. unfold group_of, int64. simpl.
  rewrite !filter_cons, filter_nil.
  repeat (destruct (decide _)); simpl; lia.
Defined.

(** C6, as stated, fails: two retweets of one tweet with 2^62 retweets each
    have 2^63 retweets together, and the one row of the table has
    Total_Retweets = -2^63. *)
Lemma total_retweets_conserved_counterexample :
  exists w u c lc rows,
    load_data overflow_fs = ([], Return [w; u; c; PFrame rows; lc]) /\
    Forall (fun tweet => int64 (retweet_count tweet)) (filter qualifying overflow_tweets) /\
    sumZ (map retweet_count (filter qualifying overflow_tweets)) = 2 ^ 63 /\
    sumZ (map Total_Retweets rows) = - 2 ^ 63.
Proof.
  do 5 eexists. split; [reflexivity|]. split_and!; try reflexivity.
  repeat constructor; simpl; lia.
Qed.

End AggregatedTable.

(** ** Counting languages *)

Section LanguageCounts.

Lemma first_index_None (x : string) (l : list string) :
  first_index x l = None <-> x ∉ l.
Proof.
  induction l as [|y l IH]; simpl.
  - split; [intros _ H; inversion H|reflexivity].
  - rewrite not_elem_of_cons. destruct (String.eqb_spec x y) as [->|Hne].
    + split; [discriminate|]. intros [H _]. congruence.
    + destruct (first_index x l); simpl.
      * split; [discriminate|]. intros [_ H]. apply IH in H. discriminate.
      * split; [|reflexivity]. intros _. split; [assumption|]. now apply IH.
Qed.

Lemma first_index_lt (x : string) (l : list string) (i : nat) :
  first_index x l = Some i -> (i < length l)%nat.
Proof.
  revert i. induction l as [|y l IH]; simpl; intros i; [discriminate|].
  destruct (String.eqb x y).
  - intros [= <-]. lia.
  - destruct (first_index x l) as [j|]; simpl; [|discriminate].
    intros [= <-]. specialize (IH j eq_refl). lia.
Qed.

Lemma first_index_app (x : string) (l1 l2 : list string) :
  first_index x (l1 ++ l2) =
    match first_index x l1 with
    | Some i => Some i
    | None => (fun j => (length l1 + j)%nat) <$> first_index x l2
    end.
Proof.
  induction l1 as [|y l1 IH]; simpl.
  - destruct (first_index x l2); reflexivity.
  - destruct (String.eqb x y); [reflexivity|].
    rewrite IH. destruct (first_index x l1); simpl; [reflexivity|].
    destruct (first_index x l2); reflexivity.
Qed.

Lemma occurrences_app (x : string) (l1 l2 : list string) :
  occurrences x (l1 ++ l2) = (occurrences x l1 + occurrences x l2)%nat.
Proof. unfold occurrences. now rewrite filter_app, length_app. Qed.

Lemma occurrences_pos (x : string) (l : list string) :
  (0 < occurrences x l)%nat <-> x ∈ l.
Proof.
  unfold occurrences. induction l as [|y l IH]; simpl.
  - split; [lia|]. intros H. inversion H.
  - rewrite filter_cons, elem_of_cons. destruct (decide (y = x)) as [->|Hne]; simpl.
    + split; [auto|lia].
    + rewrite IH. split; [auto|]. intros [->|H]; [congruence|assumption].
Qed.

(** *** One more language *)

Lemma count_up_keys (x : string) (counter : list (string * nat)) :
  map fst (count_up x counter) =
    if decide (x ∈ map fst counter) then map fst counter else map fst counter ++ [x].
Proof.
  induction counter as [|[y n] rest IH]; simpl.
  - destruct (decide (x ∈ [])) as [H|_]; [inversion H|reflexivity].
  - destruct (String.eqb_spec x y) as [->|Hne]; simpl.
    + destruct (decide (y ∈ y :: map fst rest)) as [_|H]; [reflexivity|].
      destruct H. left.
    + rewrite IH. destruct (decide (x ∈ map fst rest)) as [Hin|Hout].
      * destruct (decide (x ∈ y :: map fst rest)) as [_|H]; [reflexivity|].
        destruct H. now right.
      * destruct (decide (x ∈ y :: map fst rest)) as [H|_]; [|reflexivity].
        apply elem_of_cons in H as [->|H]; [congruence|contradiction].
Qed.

Lemma count_up_count_of (x l : string) (counter : list (string * nat)) :
  count_of l (count_up x counter) =
    (count_of l counter + if decide (x = l) then 1 else 0)%nat.
Proof.
  induction counter as [|[y n] rest IH]; simpl.
  - destruct (String.eqb_spec l x) as [->|Hne].
    + destruct (decide (x = x)); [reflexivity|congruence].
    + destruct (decide (x = l)); [congruence|reflexivity].
  - destruct (String.eqb_spec x y) as [->|Hxy]; simpl.
    + destruct (String.eqb_spec l y) as [->|Hly].
      * destruct (decide (y = y)); [lia|congruence].
      * destruct (decide (y = l)); [congruence|lia].
    + destruct (String.eqb_spec l y) as [->|Hly].
      * destruct (decide (x = y)); [congruence|lia].
      * apply IH.
Qed.

Lemma count_of_elem (counter : list (string * nat)) (l : string) (n : nat) :
  NoDup (map fst counter) ->
  (l, n) ∈ counter <-> l ∈ map fst counter /\ n = count_of l counter.
Proof.
  induction counter as [|[y m] rest IH]; simpl; intros Hnd.
  - split; [intros H; inversion H|intros [H _]; inversion H].
  - apply NoDup_cons in Hnd as [Hfresh Hnd].
    rewrite !elem_of_cons, (IH Hnd). destruct (String.eqb_spec l y) as [->|Hne].
    + split.
      * intros [[= ->]|[H _]]; [auto|contradiction].
      * intros [_ ->]. now left.
    + split.
      * intros [[= -> ->]|[H ->]]; [congruence|auto].
      * intros [[->|H] ->]; [congruence|auto].
Qed.

(** *** The counter of a whole sequence *)

Lemma Counter_snoc (pre : list string) (x : string) :
  Counter (pre ++ [x]) = count_up x (Counter pre).
Proof. unfold Counter. now rewrite fold_left_app. Qed.

Lemma Counter_keys (langs : list string) (l : string) :
  l ∈ map fst (Counter langs) <-> l ∈ langs.
Proof.
  induction langs as [|x pre IH] using rev_ind.
  - reflexivity.
  - rewrite Counter_snoc, count_up_keys, elem_of_app, list_elem_of_singleton.
    destruct (decide (x ∈ map fst (Counter pre))) as [Hin|Hout].
    + rewrite IH. split; [auto|]. intros [H| ->]; [assumption|]. now apply IH.
    + rewrite elem_of_app, list_elem_of_singleton, IH. reflexivity.
Qed.

Lemma Counter_NoDup (langs : list string) : NoDup (map fst (Counter langs)).
Proof.
  induction langs as [|x pre IH] using rev_ind.
  - constructor.
  - rewrite Counter_snoc, count_up_keys.
    destruct (decide (x ∈ map fst (Counter pre))) as [Hin|Hout]; [assumption|].
    apply NoDup_app. split; [assumption|]. split.
    + intros y Hy Hx. apply list_elem_of_singleton in Hx as ->. contradiction.
    + apply NoDup_singleton.
Qed.

Lemma Counter_count_of (langs : list string) (l : string) :
  count_of l (Counter langs) = occurrences l langs.
Proof.
  induction langs as [|x pre IH] using rev_ind.
  - reflexivity.
  - rewrite Counter_snoc, count_up_count_of, IH, occurrences_app.
    unfold occurrences at 3. rewrite filter_cons, filter_nil.
    destruct (decide (x = l)); reflexivity.
Qed.

Lemma seen_before_snoc (pre : list string) (x a b : string) :
  a ∈ pre -> b ∈ pre -> seen_before pre a b -> seen_before (pre ++ [x]) a b.
Proof.
  unfold seen_before. intros Ha Hb. rewrite !first_index_app.
  destruct (first_index a pre) eqn:Ea; [|now apply first_index_None in Ea].
  destruct (first_index b pre) eqn:Eb; [|now apply first_index_None in Eb].
  auto.
Qed.

Lemma seen_before_new (pre : list string) (x a : string) :
  a ∈ pre -> x ∉ pre -> seen_before (pre ++ [x]) a x.
Proof.
  unfold seen_before. intros Ha Hx. rewrite !first_index_app.
  destruct (first_index a pre) as [i|] eqn:Ea; [|now apply first_index_None in Ea].
  apply first_index_None in Hx. rewrite Hx. simpl. rewrite String.eqb_refl. simpl.
  apply first_index_lt in Ea. lia.
Qed.

(** The keys of a counter stand in the order in which they were first met. *)
Lemma Counter_first_seen (langs : list string) :
  StronglySorted (seen_before langs) (map fst (Counter langs)).
Proof.
  induction langs as [|x pre IH] using rev_ind.
  - constructor.
  - assert (StronglySorted (seen_before (pre ++ [x])) (map fst (Counter pre))) as Hold.
    { pose proof (fun l => proj1 (Counter_keys pre l)) as Hkeys.
      revert Hkeys. induction IH as [|a keys Hs IHs Hall]; intros Hkeys; constructor.
      - apply IHs. intros l Hl. apply Hkeys. now right.
      - rewrite Forall_forall in Hall |- *. intros b Hb.
        apply seen_before_snoc; [apply Hkeys; left|apply Hkeys; now right|auto]. }
    rewrite Counter_snoc, count_up_keys.
    destruct (decide (x ∈ map fst (Counter pre))) as [Hin|Hout]; [assumption|].
    apply StronglySorted_app_2; [|assumption|repeat constructor].
    intros a b Ha Hb. apply list_elem_of_singleton in Hb as ->.
    apply seen_before_new; [now apply Counter_keys|].
    intros Hx. apply Hout. now apply Counter_keys.
Qed.

End LanguageCounts.

(** ** The sort keeps the order of equal elements *)

Section StableSort.

Context {A : Type} (f : A -> nat) (R : A -> A -> Prop).


Lemma insert_desc_stable (x : A) (l : list A) :
  StronglySorted (stable_desc f R) l -> Forall (R x) l -> StronglySorted (stable_desc f R) (insert_desc (smaller f) x l).
Proof.
  induction l as [|y l IH]; simpl; intros Hs Hx.
  - repeat constructor.
  - apply StronglySorted_inv in Hs as [Hs Hy].
    apply Forall_cons in Hx as [Hxy Hx].
    unfold smaller at 1. destruct (Nat.ltb_spec (f x) (f y)) as [Hlt|Hge].
    + constructor; [auto|].
      rewrite (insert_desc_perm (smaller f) x l). constructor; [|assumption].
      left. exact Hlt.
    + constructor; [constructor; assumption|].
      assert (stable_desc f R x y) as Hrxy.
      { unfold stable_desc. destruct (decide (f x = f y)); [right; auto|left; lia]. }
      constructor; [exact Hrxy|].
      rewrite Forall_forall in Hy, Hx |- *. intros z Hz.
      unfold stable_desc. destruct (Hy z Hz) as [H|[H _]].
      * left. lia.
      * destruct (decide (f x = f z)); [right; auto|left; lia].
Qed.

Lemma sort_desc_stable (l : list A) :
  StronglySorted R l -> StronglySorted (stable_desc f R) (sort_desc (smaller f) l).
Proof.
  unfold sort_desc. induction 1 as [|x l Hs IH Hx]; simpl; [constructor|].
  apply insert_desc_stable; [assumption|].
  fold (sort_desc (smaller f) l). now rewrite (sort_desc_perm (smaller f) l).
Qed.

End StableSort.

(** ** The language table *)

Section LanguageTable.

Lemma StronglySorted_map {A B} (R : B -> B -> Prop) (g : A -> B) (l : list A) :
  StronglySorted R (map g l) -> StronglySorted (fun a b => R (g a) (g b)) l.
Proof.
  induction l as [|x l IH]; simpl; intros Hs; [constructor|].
  apply StronglySorted_inv in Hs as [Hs Hx].
  constructor; [auto|].
  rewrite Forall_forall in Hx. rewrite Forall_forall. intros y Hy. apply Hx.
  rewrite map_fmap. now apply list_elem_of_fmap_2.
Qed.

Lemma most_common_perm (counter : list (string * nat)) : most_common counter ≡ₚ counter.
Proof. apply sort_desc_perm. Qed.

Lemma count_up_total (x : string) (counter : list (string * nat)) :
  sum_list_with snd (count_up x counter) = S (sum_list_with snd counter).
Proof.
  induction counter as [|[y n] rest IH]; simpl; [reflexivity|].
  destruct (String.eqb x y); simpl; [reflexivity|]. rewrite IH. lia.
Qed.

Lemma Counter_total (langs : list string) :
  sum_list_with snd (Counter langs) = length langs.
Proof.
  induction langs as [|x pre IH] using rev_ind; [reflexivity|].
  rewrite Counter_snoc, count_up_total, IH, length_app. simpl. lia.
Qed.

Lemma sum_list_with_perm {A} (f : A -> nat) (l1 l2 : list A) :
  l1 ≡ₚ l2 -> sum_list_with f l1 = sum_list_with f l2.
Proof. induction 1; simpl; lia. Qed.

(** C7. The language table counts the Lang values of all qualifying records
    of the corpus (the records, not the groups of the aggregated table): a
    language is listed once, with the number of qualifying records that carry
    it. The table is in descending order of count, and among equal counts the
    language met first in the corpus comes first. The Lang values en, en, es,
    und give (en, 2), (es, 1), (und, 1). *)
Theorem language_frequency_table
    (fs : filesystem) (tweets : list Tweet) (log : list event)
    (w u c df : pyval) (lc : list (string * nat)) :
  WeLoveTheEarth fs = Some tweets ->
  load_data fs = (log, Return [w; u; c; df; PCounts lc]) ->
  let langs := map lang (filter qualifying tweets) in
  NoDup (map fst lc) /\
  (forall l n, (l, n) ∈ lc <-> (0 < n)%nat /\ n = occurrences l langs) /\
  StronglySorted (table_order langs) lc /\
  (langs = ["en"; "en"; "es"; "und"] ->
   lc = [("en", 2%nat); ("es", 1%nat); ("und", 1%nat)]).
Proof.
  intros Htweets Hload langs.
  apply load_data_products in Hload
    as (WW & US & tweets' & wt & ut & _ & _ & Ht & _ & _ & _ & _ & _ & _ & _ & _ & Hlc).
  rewrite Htweets in Ht. injection Ht as <-. injection Hlc as ->.
  rewrite retweets_data_Lang. fold langs. split_and!.
  - rewrite (Permutation_map fst (most_common_perm _)). apply Counter_NoDup.
  - intros l n. rewrite most_common_perm, count_of_elem by apply Counter_NoDup.
    rewrite Counter_keys, Counter_count_of, <- occurrences_pos.
    split; intros [H ->]; auto.
  - apply (sort_desc_stable snd (fun a b => seen_before langs a.1 b.1)).
    apply StronglySorted_map, Counter_first_seen.
  - intros ->. reflexivity.
Qed.

Lemma language_frequency_table_witness :
  most_common (Counter (map Lang (retweets_data language_tweets))) =
    [("en", 2%nat); ("es", 1%nat); ("und", 1%nat)].
Proof.
  destruct (language_frequency_table language_fs language_tweets [] _ _ _ _
              (most_common (Counter (map Lang (retweets_data language_tweets))))
              eq_refl eq_refl)
    as (_ & _ & _ & H).
  exact (H eq_refl).
Defined.

(** C8. The counts of the language table add up to the number of qualifying
    records of the corpus. *)
Theorem language_counts_total
    (fs : filesystem) (tweets : list Tweet) (log : list event)
    (w u c df : pyval) (lc : list (string * nat)) :
  WeLoveTheEarth fs = Some tweets ->
  load_data fs = (log, Return [w; u; c; df; PCounts lc]) ->
  sum_list_with snd lc = length (filter qualifying tweets).
Proof.
  intros Htweets Hload.
  apply load_data_products in Hload
    as (WW & US & tweets' & wt & ut & _ & _ & Ht & _ & _ & _ & _ & _ & _ & _ & _ & Hlc).
  rewrite Htweets in Ht. injection Ht as <-. injection Hlc as ->.
  rewrite (sum_list_with_perm _ _ _ (most_common_perm _)), Counter_total.
  rewrite retweets_data_Lang. apply length_map.
Qed.

Lemma language_counts_total_witness :
  sum_list_with snd (most_common (Counter (map Lang (retweets_data language_tweets)))) = 4%nat.
Proof.
  exact (language_counts_total language_fs language_tweets [] _ _ _ _
           (most_common (Counter (map Lang (retweets_data language_tweets))))
           eq_refl eq_refl).
Defined.

End LanguageTable.

(** ** Trend sets *)

Section TrendSets.

Lemma trend_names_valid (doc : json) (names : list string) :
  valid_trend_document doc names ->
  trend_names doc = Return (list_to_set (map KStr names)).
Proof.
  intros (fields & rest & items & -> & Htrends & Hitems).
  unfold trend_names. simpl. rewrite Htrends. simpl.
  assert (comprehension (fun trend => getitem_str trend "name") items =
            Return (map JStr names)) as ->.
  { clear Htrends.
    induction Hitems as [|item n items names (item_fields & -> & Hname) _ IH];
      simpl; [reflexivity|].
    now rewrite Hname, IH. }
  simpl.
  assert (comprehension hash_key (map JStr names) = Return (map KStr names)) as ->.
  { clear. induction names as [|n names IH]; simpl; [reflexivity|]. now rewrite IH. }
  reflexivity.
Qed.

Lemma elem_of_names (k : key) (names : list string) :
  k ∈ (list_to_set (map KStr names) : gset key) <-> exists n, k = KStr n /\ n ∈ names.
Proof. now rewrite elem_of_list_to_set, map_fmap, list_elem_of_fmap. Qed.

(** With the three files present, trend documents of the expected shape and
    a corpus with a qualifying record, [load_data] returns its five products. *)
Lemma load_data_returns (fs : filesystem) (WW US : json) (tweets : list Tweet)
    (world_names us_names : list string) (tweet : Tweet) :
  WWTrends fs = Some WW -> USTrends fs = Some US -> WeLoveTheEarth fs = Some tweets ->
  valid_trend_document WW world_names -> valid_trend_document US us_names ->
  tweet ∈ tweets -> qualifying tweet ->
  load_data fs =
    ([], Return [PSet (list_to_set (map KStr world_names));
                 PSet (list_to_set (map KStr us_names));
                 PSet (list_to_set (map KStr world_names) ∩ list_to_set (map KStr us_names));
                 PFrame (aggregated (retweets_data tweets));
                 PCounts (most_common (Counter (map Lang (retweets_data tweets))))]).
Proof.
  intros H1 H2 H3 Hvw Hvu Hin [rs Hrs].
  rewrite (load_data_present fs WW US tweets H1 H2 H3). unfold process.
  rewrite (trend_names_valid WW world_names Hvw), (trend_names_valid US us_names Hvu).
  destruct (retweets_data tweets) as [|r df] eqn:Hdf; [|reflexivity].
  assert (filter qualifying tweets = []) as Hnil.
  { pose proof (retweets_data_Retweets tweets) as Hlen. rewrite Hdf in Hlen.
    destruct (filter qualifying tweets); [reflexivity|discriminate]. }
  assert (tweet ∈ filter qualifying tweets) as Hq.
  { apply list_elem_of_filter. split; [|assumption]. unfold qualifying. eauto. }
  rewrite Hnil in Hq. inversion Hq.
Qed.

(** C3. Whenever [load_data] returns its trend sets, the common set is the
    intersection of the world set and the region set, and it has at most as
    many elements as the smaller of the two. For trend documents of the
    expected shape the common set holds the names that both documents list.
    The world set {a, b, c} and the region set {b, c, d} give the common
    set {b, c}, of size 2. *)
Theorem common_trends_intersection
    (fs : filesystem) (log : list event) (w u c : gset key) (df lc : pyval) :
  load_data fs = (log, Return [PSet w; PSet u; PSet c; df; lc]) ->
  c = w ∩ u /\
  (size c <= Nat.min (size w) (size u))%nat /\
  (forall WW US world_names us_names,
     WWTrends fs = Some WW -> USTrends fs = Some US ->
     valid_trend_document WW world_names -> valid_trend_document US us_names ->
     forall k, k ∈ c <-> exists n, k = KStr n /\ n ∈ world_names /\ n ∈ us_names) /\
  (forall x y z t : key,
     NoDup [x; y; z; t] -> w = {[x; y; z]} -> u = {[y; z; t]} ->
     c = {[y; z]} /\ size c = 2%nat).
Proof.
  intros Hload.
  apply load_data_products in Hload
    as (WW & US & tweets & wt & ut & HWW & HUS & _ & Hwt & Hut & _ & _ & Hw & Hu & Hc & _).
  injection Hw as ->. injection Hu as ->. injection Hc as ->.
  split; [reflexivity|]. split; [|split].
  - apply Nat.min_glb; apply subseteq_size; set_solver.
  - intros WW' US' wn un HWW' HUS' Hvw Hvu k.
    rewrite HWW in HWW'. injection HWW' as <-.
    rewrite HUS in HUS'. injection HUS' as <-.
    rewrite (trend_names_valid WW wn Hvw) in Hwt. injection Hwt as <-.
    rewrite (trend_names_valid US un Hvu) in Hut. injection Hut as <-.
    rewrite elem_of_intersection, !elem_of_names. split.
    + intros [(n & -> & Hn) (n' & [= <-] & Hn')]. eauto.
    + intros (n & -> & Hn & Hn'). split; exists n; auto.
  - intros x y z t Hnd -> ->.
    apply NoDup_cons in Hnd as [Hx Hnd]. apply NoDup_cons in Hnd as [Hy Hnd].
    apply NoDup_cons in Hnd as [Hz _].
    rewrite !not_elem_of_cons in Hx, Hy, Hz.
    assert (({[x; y; z]} : gset key) ∩ {[y; z; t]} = {[y; z]}) as -> by set_solver.
    split; [reflexivity|].
    rewrite size_union by set_solver. now rewrite !size_singleton.
Qed.

Lemma common_trends_intersection_witness :
  exists c : gset key,
    (load_data scenario_fs).2 =
      Return [PSet {[KStr "a"; KStr "b"; KStr "c"]}; PSet {[KStr "b"; KStr "c"; KStr "d"]};
              PSet c; PFrame [scenario_row];
              PCounts [("en", 2%nat)]] /\
    c = {[KStr "b"; KStr "c"]} /\ size c = 2%nat.
Proof.
  assert (load_data scenario_fs =
            ([], Return [PSet {[KStr "a"; KStr "b"; KStr "c"]};
                         PSet {[KStr "b"; KStr "c"; KStr "d"]};
                         PSet ({[KStr "a"; KStr "b"; KStr "c"]} ∩ {[KStr "b"; KStr "c"; KStr "d"]});
                         PFrame [scenario_row]; PCounts [("en", 2%nat)]])) as Hload
    by (vm_compute; reflexivity).
  destruct (common_trends_intersection scenario_fs [] _ _ _ _ _ Hload) as (_ & _ & _ & H).
  exists ({[KStr "a"; KStr "b"; KStr "c"]} ∩ {[KStr "b"; KStr "c"; KStr "d"]}).
  split; [now rewrite Hload|].
  apply (H (KStr "a") (KStr "b") (KStr "c") (KStr "d")); [|reflexivity|reflexivity].
  apply NoDup_ListNoDup. repeat constructor; simpl; intuition congruence.
Defined.

End TrendSets.

(** ** What the caller sees *)

Section Caller.

Lemma main_raise (fs : filesystem) (log : list event) (e : exn) :
  load_data fs = (log, Raise e) -> main fs = (preamble ++ log, Raise e).
Proof. intros H. unfold main. rewrite H. reflexivity. Qed.

Lemma main_no_data (fs : filesystem) (log : list event) :
  load_data fs = (log, Return no_data) -> main fs = (preamble ++ log, Raise ValueError).
Proof.
  intros H. unfold main. rewrite H. simpl. now rewrite app_nil_r.
Qed.

Lemma not_missing (fs : filesystem) :
  ¬ missing fs ->
  exists WW US tweets,
    WWTrends fs = Some WW /\ USTrends fs = Some US /\ WeLoveTheEarth fs = Some tweets.
Proof.
  unfold missing. destruct fs as [[WW|] [US|] [tweets|]]; simpl; intros H;
    try (destruct H; auto; fail).
  eauto 7.
Qed.

(** With the five products in hand [main] comes to the scatter plot, and
    runs to its end unless Plotly refuses the marker sizes. *)
Lemma main_products (fs : filesystem)
    (w u c : gset key) (rows : list EngagementAggregate) (lc : list (string * nat)) :
  load_data fs = ([], Return [PSet w; PSet u; PSet c; PFrame rows; PCounts lc]) ->
  main fs =
    if marker_sizes rows
    then (page_before_scatter w u c rows ++ page_from_scatter, Return tt)
    else (page_before_scatter w u c rows, Raise ValueError).
Proof.
  intros Hload. unfold main. rewrite Hload.
  unfold create_engagement_scatter, px_scatter, marker_sizes.
  cbn [mbind M_bind emit lift unpack5 is_None app expect_frame].
  destruct (forallb (fun row => 0 <=? agg_Followers row) rows); reflexivity.
Qed.

Lemma main_products_log (fs : filesystem) (log : list event)
    (w u c : gset key) (rows : list EngagementAggregate) (lc : list (string * nat)) :
  load_data fs = (log, Return [PSet w; PSet u; PSet c; PFrame rows; PCounts lc]) ->
  log = [].
Proof.
  intros Hload. apply load_data_products in Hload.
  destruct Hload as (WW & US & tweets & wt & ut & _ & _ & _ & _ & _ & _ & -> & _).
  reflexivity.
Qed.

(** C2. When one of the three source files is missing, loading fails on the
    [FileNotFoundError] path: it puts the notice on the page and returns no
    data product, only [None]s; [main] binds none of its five outputs (the
    unpacking raises), and the page has the notice and no chart or table. *)
Theorem missing_file_unavailable (fs : filesystem) :
  missing fs ->
  load_data fs = ([st_error not_found_notice], Return no_data) /\
  Forall (fun v => is_None v = true) no_data /\
  unpack5 no_data = Raise ValueError /\
  exists page,
    main fs = (page, Raise ValueError) /\
    st_error not_found_notice ∈ page /\
    Forall (fun ev => renders ev = false) page.
Proof.
  intros Hmiss. pose proof (load_data_missing fs Hmiss) as Hload.
  split; [exact Hload|]. split; [repeat constructor|]. split; [reflexivity|].
  exists (preamble ++ [st_error not_found_notice]).
  split; [now apply main_no_data|]. split.
  - apply elem_of_app. right. left.
  - repeat constructor.
Qed.

Lemma missing_file_unavailable_witness :
  main missing_corpus_fs =
    ([st_set_page_config; st_title; st_markdown; st_info; st_error not_found_notice],
     Raise ValueError).
Proof.
  destruct (missing_file_unavailable missing_corpus_fs) as (_ & _ & _ & page & H & _).
  - right. right. reflexivity.
  - reflexivity.
Defined.

(** C9. With a file missing [load_data] returns a tuple of four values, each
    of them [None]; a load that finds its three files and returns, returns
    five data products. [main] unpacks five values, so on the four-tuple the
    unpacking raises [ValueError]. *)
Theorem failure_path_shape (fs : filesystem) :
  (missing fs ->
   exists log t,
     load_data fs = (log, Return t) /\
     length t = 4%nat /\ Forall (fun v => v = PNone) t /\
     unpack5 t = Raise ValueError /\
     exists page, main fs = (page, Raise ValueError)) /\
  (forall log t,
     ¬ missing fs -> load_data fs = (log, Return t) ->
     length t = 5%nat /\ Forall (fun v => v <> PNone) t /\
     exists products, unpack5 t = Return products).
Proof.
  split.
  - intros Hmiss. exists [st_error not_found_notice], no_data.
    pose proof (load_data_missing fs Hmiss) as Hload.
    split; [exact Hload|]. split; [reflexivity|]. split; [repeat constructor|].
    split; [reflexivity|]. eexists. exact (main_no_data fs _ Hload).
  - intros log t Hpresent Hload.
    destruct (load_data_cases fs) as [[_ Hmiss]|(WW & US & tweets & _ & _ & _ & E)];
      [contradiction|].
    rewrite E in Hload. unfold process in Hload.
    destruct (trend_names WW); [|discriminate].
    destruct (trend_names US); [|discriminate].
    destruct (retweets_data tweets); [discriminate|].
    injection Hload as <- <-.
    split; [reflexivity|]. split; [repeat constructor; discriminate|].
    eexists. reflexivity.
Qed.

Lemma failure_path_shape_witness :
  (exists log, load_data missing_corpus_fs = (log, Return [PNone; PNone; PNone; PNone])) /\
  (exists t, (load_data scenario_fs).2 = Return t /\ length t = 5%nat).
Proof.
  split.
  - destruct (proj1 (failure_path_shape missing_corpus_fs)) as (log & t & H & _).
    + right. right. reflexivity.
    + exists [st_error not_found_notice]. reflexivity.
  - destruct (load_data scenario_fs) as [log [t|e]] eqn:E; [|discriminate].
    exists t. split; [reflexivity|].
    refine (proj1 (proj2 (failure_path_shape scenario_fs) log t _ E)).
    unfold missing. simpl. intros [H|[H|H]]; discriminate.
Defined.

(** C10. [load_data] returns data products only if some record of the corpus
    qualifies. With the three files present and both trend sets built, a
    corpus without a qualifying record makes the grouping raise [KeyError]:
    no empty tables are returned. *)
Theorem no_qualifying_record (fs : filesystem) :
  (forall log t,
     load_data fs = (log, Return t) -> t <> no_data ->
     exists tweets tweet,
       WeLoveTheEarth fs = Some tweets /\ tweet ∈ tweets /\ qualifying tweet) /\
  (forall WW US tweets world_trends us_trends,
     WWTrends fs = Some WW -> USTrends fs = Some US -> WeLoveTheEarth fs = Some tweets ->
     trend_names WW = Return world_trends -> trend_names US = Return us_trends ->
     Forall (fun tweet => ¬ qualifying tweet) tweets ->
     load_data fs = ([], Raise (KeyError (KStr "ScreenName"))) /\
     main fs = (preamble, Raise (KeyError (KStr "ScreenName")))).
Proof.
  split.
  - intros log t Hload Ht.
    destruct (load_data_cases fs) as [[E _]|(WW & US & tweets & _ & _ & H3 & E)];
      rewrite E in Hload; [congruence|].
    unfold process in Hload.
    destruct (trend_names WW); [|discriminate].
    destruct (trend_names US); [|discriminate].
    destruct (retweets_data tweets) as [|r df] eqn:Hdf; [discriminate|].
    exists tweets.
    assert (filter qualifying tweets <> []) as Hq.
    { intros Hnil. pose proof (retweets_data_Retweets tweets) as Hlen.
      rewrite Hdf, Hnil in Hlen. discriminate. }
    destruct (filter qualifying tweets) as [|tweet rest] eqn:Hf; [congruence|].
    exists tweet. split; [assumption|].
    assert (tweet ∈ filter qualifying tweets) as Hin by (rewrite Hf; left).
    apply list_elem_of_filter in Hin as [? ?]. auto.
  - intros WW US tweets wt ut H1 H2 H3 Hw Hu Hnone.
    assert (retweets_data tweets = []) as Hdf.
    { clear H3. induction Hnone as [|tweet rest Hno _ IH]; simpl; [reflexivity|].
      destruct (retweeted_status tweet) eqn:E; [|exact IH].
      destruct Hno. unfold qualifying. rewrite E. eauto. }
    assert (load_data fs = ([], Raise (KeyError (KStr "ScreenName")))) as Hload.
    { rewrite (load_data_present fs WW US tweets H1 H2 H3).
      unfold process. now rewrite Hw, Hu, Hdf. }
    split; [exact Hload|].
    rewrite (main_raise fs _ _ Hload). now rewrite app_nil_r.
Qed.

Lemma no_qualifying_record_witness :
  load_data no_retweet_fs = ([], Raise (KeyError (KStr "ScreenName"))) /\
  exists tweet, tweet ∈ scenario_tweets /\ qualifying tweet.
Proof.
  split.
  - refine (proj1 (proj2 (no_qualifying_record no_retweet_fs) _ _ _ _ _
                     eq_refl eq_refl eq_refl eq_refl eq_refl _)).
    repeat constructor; intros [rs Hrs]; discriminate.
  - destruct (load_data scenario_fs) as [log [t|e]] eqn:E; [|discriminate].
    destruct (proj1 (no_qualifying_record scenario_fs) log t E)
      as (tweets & tweet & Ht & Hin & Hq).
    + intros ->. discriminate.
    + injection Ht as <-. eauto.
Defined.

End Caller.

(** ** Malformed trend documents *)

Section Malformed.

Lemma trend_names_malformed (doc : json) :
  malformed doc = true -> trend_names doc = Raise (malformed_error doc).
Proof.
  unfold malformed, trend_names.
  destruct doc as [| | | |items|]; try discriminate.
  destruct items as [|first rest]; [reflexivity|].
  destruct first as [| | | | |fields]; try discriminate. simpl.
  destruct (assoc "trends" fields); [discriminate|reflexivity].
Qed.

(** C5, as the code has it. With the three files present, a trend document
    whose top-level sequence is empty, or whose first element is an object
    without the [trends] key, makes [load_data] raise: [IndexError] for the
    empty sequence, [KeyError] for the missing key. Nothing catches it:
    no data product is returned and [main] stops before any chart, and no
    notice is put on the page. *)
Theorem malformed_trend_document_raises
    (fs : filesystem) (WW US : json) (tweets : list Tweet) :
  WWTrends fs = Some WW -> USTrends fs = Some US -> WeLoveTheEarth fs = Some tweets ->
  malformed WW = true \/ malformed US = true ->
  (malformed WW = true ->
   load_data fs = ([], Raise (malformed_error WW))) /\
  (forall world_trends,
     trend_names WW = Return world_trends -> malformed US = true ->
     load_data fs = ([], Raise (malformed_error US))) /\
  exists e,
    load_data fs = ([], Raise e) /\
    main fs = (preamble, Raise e) /\
    Forall (fun ev => is_notice ev = false /\ renders ev = false) preamble.
Proof.
  intros H1 H2 H3 Hmal.
  pose proof (load_data_present fs WW US tweets H1 H2 H3) as Hload.
  unfold process in Hload.
  assert (malformed WW = true -> load_data fs = ([], Raise (malformed_error WW))) as HWW.
  { intros H. now rewrite Hload, (trend_names_malformed WW H). }
  assert (forall world_trends,
            trend_names WW = Return world_trends -> malformed US = true ->
            load_data fs = ([], Raise (malformed_error US))) as HUS.
  { intros wt Hw H. now rewrite Hload, Hw, (trend_names_malformed US H). }
  split; [exact HWW|]. split; [exact HUS|].
  assert (exists e, load_data fs = ([], Raise e)) as [e He].
  { destruct Hmal as [H|H]; [eauto|].
    destruct (trend_names WW) as [wt|e] eqn:Hw; [eauto|].
    exists e. exact Hload. }
  exists e. split; [exact He|]. split.
  - rewrite (main_raise fs _ _ He). now rewrite app_nil_r.
  - repeat constructor.
Qed.

Lemma malformed_trend_document_raises_witness :
  load_data empty_trends_fs = ([], Raise IndexError) /\
  load_data keyless_trends_fs = ([], Raise (KeyError (KStr "trends"))).
Proof.
  split.
  - refine (proj1 (malformed_trend_document_raises empty_trends_fs _ _ _
                     eq_refl eq_refl eq_refl _) eq_refl).
    left. reflexivity.
  - refine (proj1 (proj2 (malformed_trend_document_raises keyless_trends_fs _ _ _
                            eq_refl eq_refl eq_refl _)) _ _ eq_refl).
    + right. reflexivity.
    + reflexivity.
Defined.

(** C5, as stated, fails: on an empty world-trend sequence the loader raises
    [IndexError], which is not the outcome of a missing file, and the page
    that the user gets has no notice, unlike the page of a missing file. *)
Lemma malformed_trend_document_counterexample :
  malformed (JArr []) = true /\
  WWTrends empty_trends_fs = Some (JArr []) /\
  load_data empty_trends_fs = ([], Raise IndexError) /\
  load_data empty_trends_fs <> load_data missing_corpus_fs /\
  main empty_trends_fs = (preamble, Raise IndexError) /\
  forallb (fun ev => negb (is_notice ev)) (main empty_trends_fs).1 = true /\
  forallb (fun ev => negb (is_notice ev)) (main missing_corpus_fs).1 = false.
Proof.
  split_and!; try reflexivity. discriminate.
Qed.

End Malformed.

(** ** int64 to float64 keeps the sign *)

Section FloatOfInt.

Lemma shr_1_m (mrs : shr_record) :
  0 <= shr_m mrs -> shr_m (shr_1 mrs) = shr_m mrs / 2.
Proof.
  destruct mrs as [m r s]. simpl. intros Hm.
  destruct m as [|p|p]; [reflexivity| |lia].
  destruct p as [p|p|]; simpl.
  - rewrite Pos2Z.inj_xI. apply Z.div_unique with 1; lia.
  - rewrite Pos2Z.inj_xO. apply Z.div_unique with 0; lia.
  - reflexivity.
Qed.

Lemma iter_shr_1_m (p : positive) (mrs : shr_record) :
  0 <= shr_m mrs -> shr_m (SpecFloat.iter_pos shr_1 p mrs) = shr_m mrs / 2 ^ Zpos p.
Proof.
  revert mrs. induction p as [p IH|p IH|]; intros mrs Hm; cbn [SpecFloat.iter_pos].
  - assert (0 <= shr_m (shr_1 mrs)) as H1.
    { rewrite shr_1_m by assumption. apply Z.div_pos; lia. }
    assert (0 <= shr_m (SpecFloat.iter_pos shr_1 p (shr_1 mrs))) as H2.
    { rewrite IH by assumption. apply Z.div_pos; [assumption|]. apply Z.pow_pos_nonneg; lia. }
    rewrite IH, IH, shr_1_m by assumption.
    replace (Z.pos p~1) with (1 + Z.pos p + Z.pos p) by lia.
    rewrite !Z.pow_add_r by lia. rewrite Z.pow_1_r.
    rewrite !Z.div_div by (try apply Z.pow_pos_nonneg; try apply Z.mul_pos_pos; try apply Z.pow_pos_nonneg; lia).
    f_equal. ring.
  - assert (0 <= shr_m (SpecFloat.iter_pos shr_1 p mrs)) as H2.
    { rewrite IH by assumption. apply Z.div_pos; [assumption|]. apply Z.pow_pos_nonneg; lia. }
    rewrite IH, IH by assumption.
    replace (Z.pos p~0) with (Z.pos p + Z.pos p) by lia.
    rewrite !Z.pow_add_r by lia.
    rewrite !Z.div_div by (try apply Z.pow_pos_nonneg; lia).
    reflexivity.
  - rewrite shr_1_m by assumption. reflexivity.
Qed.

Lemma digits2_lower (p : positive) : 2 ^ (Zpos (digits2_pos p) - 1) <= Zpos p.
Proof.
  induction p as [p IH|p IH|]; cbn [digits2_pos].
  - rewrite Pos2Z.inj_succ.
    replace (Z.succ (Z.pos (digits2_pos p)) - 1) with (1 + (Z.pos (digits2_pos p) - 1)) by lia.
    rewrite Z.pow_add_r by lia. rewrite Z.pow_1_r. lia.
  - rewrite Pos2Z.inj_succ.
    replace (Z.succ (Z.pos (digits2_pos p)) - 1) with (1 + (Z.pos (digits2_pos p) - 1)) by lia.
    rewrite Z.pow_add_r by lia. rewrite Z.pow_1_r. lia.
  - reflexivity.
Qed.

Lemma shr_record_of_loc_m (m : Z) (l : location) : shr_m (shr_record_of_loc m l) = m.
Proof. destruct l as [|[]]; reflexivity. Qed.

(** Shifting to the canonical exponent keeps a positive mantissa positive,
    as long as the exponent is not below the smallest one. *)
Lemma shr_fexp_pos (m e : Z) (l : location) :
  0 < m -> -1074 <= e ->
  0 < shr_m (fst (shr_fexp prec emax m e l)) /\ e <= snd (shr_fexp prec emax m e l).
Proof.
  intros Hm He. unfold shr_fexp, shr.
  destruct m as [|p|p]; try lia. cbn [Zdigits2].
  pose proof (digits2_lower p) as Hd.
  set (d := Zpos (digits2_pos p)) in *.
  assert (0 < d) as Hdpos by (unfold d; lia).
  unfold fexp, emin, prec, emax.
  destruct (Z.max (d + e - 53) (3 - 1024 - 53) - e) as [|n|n] eqn:Hn; cbn [fst snd].
  - rewrite shr_record_of_loc_m. lia.
  - rewrite iter_shr_1_m by (rewrite shr_record_of_loc_m; lia).
    rewrite shr_record_of_loc_m. split; [|lia].
    assert (Zpos n <= d - 1) as Hle by lia.
    apply Z.div_str_pos. split; [apply Z.pow_pos_nonneg; lia|].
    eapply Z.le_trans; [|exact Hd].
    apply Z.pow_le_mono_r; lia.
  - rewrite shr_record_of_loc_m. lia.
Qed.

Lemma round_nearest_even_ge (m : Z) (l : location) : m <= round_nearest_even m l.
Proof.
  destruct l as [|[]]; simpl; try lia. destruct (Z.even m); lia.
Qed.

Lemma binary_round_aux_sign (sx : bool) (m e : Z) (l : location) :
  0 < m -> -1074 <= e ->
  binary_round_aux prec emax sx m e l = S754_infinity sx \/
  exists m' e', binary_round_aux prec emax sx m e l = S754_finite sx m' e'.
Proof.
  intros Hm He. unfold binary_round_aux.
  destruct (shr_fexp_pos m e l Hm He) as [H1 H2].
  destruct (shr_fexp prec emax m e l) as [mrs' e'] eqn:E1. cbn [fst snd] in *.
  pose proof (round_nearest_even_ge (shr_m mrs') (loc_of_shr_record mrs')) as Hr.
  set (m2 := round_nearest_even (shr_m mrs') (loc_of_shr_record mrs')) in *.
  destruct (shr_fexp_pos m2 e' loc_Exact) as [H3 H4]; [lia|lia|].
  destruct (shr_fexp prec emax m2 e' loc_Exact) as [mrs'' e''] eqn:E2. cbn [fst snd] in *.
  destruct (shr_m mrs'') as [|q|q]; try lia.
  destruct (e'' <=? emax - prec); eauto.
Qed.

Lemma binary_round_sign (sx : bool) (p : positive) :
  binary_round prec emax sx p 0 = S754_infinity sx \/
  exists m' e', binary_round prec emax sx p 0 = S754_finite sx m' e'.
Proof.
  unfold binary_round, shl_align.
  destruct (fexp prec emax (Z.pos (digits2_pos p) + 0) - 0) as [|d|d] eqn:Hd;
    apply binary_round_aux_sign; try lia.
  revert Hd. unfold fexp, emin, prec, emax. lia.
Qed.

Lemma float_of_int_pos (z : Z) :
  0 < z ->
  float_of_int z = S754_infinity false \/
  exists m e, float_of_int z = S754_finite false m e.
Proof.
  destruct z as [|p|p]; try lia. intros _. apply binary_round_sign.
Qed.

Lemma float_of_int_neg (z : Z) :
  z < 0 ->
  float_of_int z = S754_infinity true \/
  exists m e, float_of_int z = S754_finite true m e.
Proof.
  destruct z as [|p|p]; try lia. intros _. apply binary_round_sign.
Qed.

End FloatOfInt.

(** ** Accounts without followers *)

Section ZeroFollowers.

Lemma engagement_rate_zero_followers (total : Z) :
  non_finite (engagement_rate total 0) = true /\
  (0 < total -> engagement_rate total 0 = S754_infinity false) /\
  (total = 0 -> engagement_rate total 0 = S754_nan) /\
  (total < 0 -> engagement_rate total 0 = S754_infinity true).
Proof.
  unfold engagement_rate. split_and!.
  - destruct (float_of_int total); reflexivity.
  - intros H. destruct (float_of_int_pos total H) as [->|(m & e & ->)]; reflexivity.
  - intros ->. reflexivity.
  - intros H. destruct (float_of_int_neg total H) as [->|(m & e & ->)]; reflexivity.
Qed.

Lemma retweets_data_row (tweets : list Tweet) (tweet : Tweet) (rs : Status) :
  tweet ∈ tweets -> retweeted_status tweet = Some rs ->
  row_of tweet rs ∈ retweets_data tweets.
Proof.
  induction tweets as [|t tweets IH]; intros Hin Hrs; [inversion Hin|].
  simpl. apply elem_of_cons in Hin as [<-|Hin].
  - rewrite Hrs. left.
  - destruct (retweeted_status t); [right|]; auto.
Qed.

(** C4, as the code has it. [load_data] has no guard for Followers = 0. A
    qualifying record whose author has no followers keeps its group in the
    aggregated table, and the Normalized_Engagement_Rate of that row is not a
    finite number: it is plus infinity when the Total_Engagement of the row is
    positive, NaN when it is 0 (and minus infinity should it be negative). *)
Theorem zero_followers_unguarded
    (fs : filesystem) (tweets : list Tweet) (log : list event)
    (w u c lc : pyval) (rows : list EngagementAggregate)
    (tweet : Tweet) (rs : Status) :
  WeLoveTheEarth fs = Some tweets ->
  load_data fs = (log, Return [w; u; c; PFrame rows; lc]) ->
  tweet ∈ tweets -> retweeted_status tweet = Some rs ->
  followers_count (user rs) = 0 ->
  exists row,
    row ∈ rows /\
    agg_ScreenName row = screen_name (user rs) /\
    agg_Text row = text tweet /\
    agg_Followers row = 0 /\
    non_finite (Normalized_Engagement_Rate row) = true /\
    (0 < Total_Engagement row -> Normalized_Engagement_Rate row = S754_infinity false) /\
    (Total_Engagement row = 0 -> Normalized_Engagement_Rate row = S754_nan) /\
    (Total_Engagement row < 0 -> Normalized_Engagement_Rate row = S754_infinity true).
Proof.
  intros Htweets Hload Hin Hrs Hzero.
  apply load_data_products in Hload
    as (WW & US & tweets' & wt & ut & _ & _ & Ht & _ & _ & _ & _ & _ & _ & _ & Hrows & _).
  rewrite Htweets in Ht. injection Ht as <-. injection Hrows as ->.
  pose proof (retweets_data_row tweets tweet rs Hin Hrs) as Hrow.
  assert (key_of (row_of tweet rs) ∈ map agg_key (aggregated (retweets_data tweets))) as Hk.
  { rewrite aggregated_keys_perm. apply accumulate_all_keys. eauto. }
  rewrite map_fmap in Hk. apply list_elem_of_fmap in Hk as (row & Hkey & Hin').
  exists row. split; [exact Hin'|].
  unfold key_of, agg_key in Hkey. simpl in Hkey. injection Hkey as Hsn Htx Hfo.
  rewrite Hzero in Hfo.
  split; [auto|]. split; [auto|]. split; [auto|].
  apply aggregated_row in Hin' as (g & _ & ->). simpl in *.
  rewrite <- Hfo. apply engagement_rate_zero_followers.
Qed.

Lemma zero_followers_unguarded_witness :
  exists row,
    row ∈ aggregated (retweets_data zero_followers_tweets) /\
    agg_ScreenName row = "B" /\ agg_Text row = "T" /\ agg_Followers row = 0 /\
    non_finite (Normalized_Engagement_Rate row) = true /\
    (0 < Total_Engagement row -> Normalized_Engagement_Rate row = S754_infinity false) /\
    (Total_Engagement row = 0 -> Normalized_Engagement_Rate row = S754_nan) /\
    (Total_Engagement row < 0 -> Normalized_Engagement_Rate row = S754_infinity true).
Proof.
  refine (zero_followers_unguarded zero_followers_fs zero_followers_tweets []
            _ _ _ _ (aggregated (retweets_data zero_followers_tweets))
            (retweet_of "B" "T" 0 10 5 "en") _ eq_refl eq_refl _ eq_refl eq_refl).
  left.
Defined.

(** C4, as stated, fails: a retweet of an account with no followers puts an
    infinite rate in the table, and one without any engagement puts NaN. *)
Lemma zero_followers_counterexample :
  exists w u c lc,
    load_data zero_followers_fs =
      ([], Return [w; u; c;
                   PFrame [ {| agg_ScreenName := "B"; agg_Text := "T"; agg_Followers := 0;
                               Total_Retweets := 5; Total_Favorites := 10;
                               Total_Engagement := 15;
                               Normalized_Engagement_Rate := S754_infinity false |};
                            {| agg_ScreenName := "C"; agg_Text := "U"; agg_Followers := 0;
                               Total_Retweets := 0; Total_Favorites := 0;
                               Total_Engagement := 0;
                               Normalized_Engagement_Rate := S754_nan |} ];
                   lc]).
Proof. do 4 eexists. reflexivity. Qed.

End ZeroFollowers.

(** ** Worked cases *)

Section WorkedCases.

(** A top-level object, not a sequence: [doc[0]] looks up the key 0. *)
Example top_level_object :
  trend_names (JObj [("trends", JArr [])]) = Raise (KeyError (KInt 0)).
Proof. reflexivity. Qed.

(** A trend without a name. *)
Example trend_without_name :
  trend_names (JArr [JObj [("trends", JArr [JObj [("name", JStr "a")]; JObj []])]])
    = Raise (KeyError (KStr "name")).
Proof. reflexivity. Qed.

(** A name that is a list cannot go in a set. *)
Example unhashable_name :
  trend_names (JArr [JObj [("trends", JArr [JObj [("name", JArr [])]])]])
    = Raise TypeError.
Proof. reflexivity. Qed.

(** An empty string under [trends] is an empty iteration. *)
Example trends_empty_string :
  trend_names (JArr [JObj [("trends", JStr "")]]) = Return ∅.
Proof. reflexivity. Qed.

(** Names that are equal in Python are one element. *)
Example equal_names_once :
  match trend_names (JArr [JObj [("trends",
          JArr [JObj [("name", JBool true)]; JObj [("name", JInt 1)];
                JObj [("name", JStr "a")]; JObj [("name", JStr "a")]])]]) with
  | Return s => size s
  | Raise _ => 0%nat
  end = 2%nat.
Proof. vm_compute. reflexivity. Qed.

(** The groups come out by descending Followers. *)
Example table_row_order :
  map agg_Followers
    (aggregated (retweets_data
       [retweet_of "B" "T" 5 1 1 "en"; retweet_of "A" "T" 5 1 1 "en";
        retweet_of "C" "T" 9 1 1 "en"; retweet_of "A" "S" 5 1 1 "en"]))
    = [9; 5; 5; 5].
Proof. reflexivity. Qed.

(** A sum of more than 2^63 in a group comes out negative. *)
Example group_sum_wraps :
  map Total_Retweets (aggregated (retweets_data overflow_tweets)) = [- 2 ^ 63].
Proof. reflexivity. Qed.

(** The page of a retweet of an account with -4 followers stops at the
    scatter plot. *)
Example negative_followers_page :
  main negative_followers_fs =
    (page_before_scatter {[KStr "a"; KStr "b"; KStr "c"]} {[KStr "b"; KStr "c"; KStr "d"]}
       ({[KStr "a"; KStr "b"; KStr "c"]} ∩ {[KStr "b"; KStr "c"; KStr "d"]})
       (aggregated (retweets_data negative_followers_tweets)),
     Raise ValueError).
Proof. vm_compute. reflexivity. Qed.

(** The rate is computed in the order of the code: one engagement on three
    followers gives 33.33333333333333, the float64 next below the
    33.333333333333336 that 100 * 1 / 3 gives. *)
Example rate_operation_order :
  engagement_rate 1 3 = S754_finite false 4691249611844266 (-47) /\
  SFdiv prec emax (SFmul prec emax (float_of_int 100) (float_of_int 1)) (float_of_int 3)
    = S754_finite false 4691249611844267 (-47).
Proof. split; reflexivity. Qed.

(** The page of the scenario: every panel is there. *)
Example scenario_page :
  exists page,
    main scenario_fs = (page, Return tt) /\
    length (List.filter renders page) = 6%nat /\
    List.filter is_notice page = [].
Proof. eexists. split; [vm_compute; reflexivity|]. split; reflexivity. Qed.

End WorkedCases.

(** * Further properties of the code *)

(** ** How a run of [load_data] ends *)

Section Outcomes.

(** The three ways: the notice and four [None]s, an exception, or the five
    products. Only the first one writes on the page. *)
Lemma load_data_outcome (fs : filesystem) :
  (missing fs /\ load_data fs = ([st_error not_found_notice], Return no_data)) \/
  (¬ missing fs /\ exists e, load_data fs = ([], Raise e)) \/
  (¬ missing fs /\
   exists w u tweets,
     WeLoveTheEarth fs = Some tweets /\ retweets_data tweets <> [] /\
     load_data fs =
       ([], Return [PSet w; PSet u; PSet (w ∩ u);
                    PFrame (aggregated (retweets_data tweets));
                    PCounts (most_common (Counter (map Lang (retweets_data tweets))))])).
Proof.
  destruct (load_data_cases fs) as [[E Hmiss]|(WW & US & tweets & H1 & H2 & H3 & E)];
    [left; auto|right].
  assert (¬ missing fs) as Hpresent.
  { unfold missing. rewrite H1, H2, H3. intros [H|[H|H]]; discriminate. }
  rewrite E. unfold process.
  destruct (trend_names WW) as [w|e]; [|left; eauto].
  destruct (trend_names US) as [u|e]; [|left; eauto].
  destruct (retweets_data tweets) as [|r df] eqn:Hdf; [left; eauto|].
  right. split; [assumption|]. exists w, u, tweets. rewrite Hdf. auto.
Qed.

(** X1. [main] ends normally only on a full page. When [main] runs to its
    end, [load_data] has returned its five products and the six panels have
    been handed to Streamlit in their order: the Venn diagram, the table,
    the scatter plot, the bar chart, the map and the language chart; so the
    early [return] on [world_trends is None] is never taken. When
    [load_data] does not return five products, [main] ends in an exception
    and no chart and no table has been handed over. And in every run what has
    been handed over is an initial part of the six panels: a run that is cut
    short, as by Plotly on a negative number of followers, leaves out the
    panels from some point on, and none in between. *)
Theorem main_full_page_or_cut_short (fs : filesystem) :
  ((main fs).2 = Return tt ->
   exists w u c rows lc,
     load_data fs = ([], Return [PSet w; PSet u; PSet c; PFrame rows; PCounts lc]) /\
     List.filter renders (main fs).1 = panels w u c rows) /\
  ((forall log w u c rows lc, load_data fs <> (log, Return [w; u; c; rows; lc])) ->
   (exists e, (main fs).2 = Raise e) /\
   List.filter renders (main fs).1 = []) /\
  (forall log w u c rows lc,
     load_data fs = (log, Return [PSet w; PSet u; PSet c; PFrame rows; PCounts lc]) ->
     List.filter renders (main fs).1 `prefix_of` panels w u c rows).
Proof.
  split_and!.
  - intros Hend.
    destruct (load_data_outcome fs)
      as [[_ E]|[[_ [e E]]|[_ (w & u & tweets & _ & _ & E)]]].
    + rewrite (main_no_data fs _ E) in Hend. discriminate.
    + rewrite (main_raise fs _ _ E) in Hend. discriminate.
    + rewrite (main_products fs _ _ _ _ _ E) in Hend |- *.
      destruct (marker_sizes _); [|discriminate].
      do 5 eexists. split; [exact E|reflexivity].
  - intros Hnone.
    destruct (load_data_outcome fs)
      as [[_ E]|[[_ [e E]]|[_ (w & u & tweets & _ & _ & E)]]].
    + rewrite (main_no_data fs _ E). split; [eauto|reflexivity].
    + rewrite (main_raise fs _ _ E). split; [eauto|reflexivity].
    + destruct (Hnone _ _ _ _ _ _ E).
  - intros log w u c rows lc Hload.
    pose proof (main_products_log _ _ _ _ _ _ _ Hload) as ->.
    rewrite (main_products fs _ _ _ _ _ Hload).
    destruct (marker_sizes rows).
    + exists []. reflexivity.
    + eexists. reflexivity.
Qed.

Lemma main_full_page_or_cut_short_witness :
  exists w u c rows lc,
    load_data scenario_fs = ([], Return [PSet w; PSet u; PSet c; PFrame rows; PCounts lc]) /\
    List.filter renders (main scenario_fs).1 = panels w u c rows.
Proof.
  apply (proj1 (main_full_page_or_cut_short scenario_fs)).
  vm_compute. reflexivity.
Defined.

(** X2. The notice that the data files were not found is on the page exactly
    when one of the three files is missing; no other run of [load_data]
    writes anything on the page. *)
Theorem notice_iff_missing (fs : filesystem) :
  (missing fs /\
   (load_data fs).1 = [st_error not_found_notice] /\
   List.filter is_notice (main fs).1 = [st_error not_found_notice]) \/
  (¬ missing fs /\
   (load_data fs).1 = [] /\
   List.filter is_notice (main fs).1 = []).
Proof.
  destruct (load_data_outcome fs)
    as [[Hm E]|[[Hp [e E]]|[Hp (w & u & tweets & _ & _ & E)]]].
  - left. rewrite (main_no_data fs _ E), E. auto.
  - right. rewrite (main_raise fs _ _ E), E. auto.
  - right. rewrite (main_products fs _ _ _ _ _ E), E.
    destruct (marker_sizes _); auto.
Qed.

End Outcomes.

(** ** The Venn diagram *)

Section Venn.

Lemma size_split (w u : gset key) :
  size w = (size (w ∖ u) + size (w ∩ u))%nat.
Proof.
  rewrite <- size_union by set_solver. f_equal.
  apply set_eq. intros k. rewrite elem_of_union, elem_of_difference, elem_of_intersection.
  destruct (decide (k ∈ u)); tauto.
Qed.

(** X3. For a world set, a region set and their intersection, the three
    numbers [create_venn_diagram] hands to the Venn diagram are the sizes of
    the three regions: the trends only in the world set, the trends only in
    the region set, and the common ones. None of them is negative and they
    add up to the number of distinct trends in the two sets. *)
Theorem venn_regions (w u : gset key) :
  create_venn_diagram (PSet w) (PSet u) (PSet (w ∩ u)) =
    ([st_subheader "Interactive Common Trends Visualization"; st_markdown;
      st_pyplot (VennDiagram (Z.of_nat (size (w ∖ u)))
                             (Z.of_nat (size (u ∖ w)))
                             (Z.of_nat (size (w ∩ u))));
      st_expander_write (w ∩ u)],
     Return tt) /\
  (size (w ∖ u) + size (u ∖ w) + size (w ∩ u))%nat = size (w ∪ u).
Proof.
  split.
  - pose proof (size_split w u) as Hw. pose proof (size_split u w) as Hu.
    assert (u ∩ w = w ∩ u) as Hcomm by (apply set_eq; set_solver).
    rewrite Hcomm in Hu.
    unfold create_venn_diagram. simpl. repeat f_equal; lia.
  - rewrite <- !size_union by set_solver. f_equal.
    apply set_eq. intros k.
    rewrite !elem_of_union, !elem_of_difference, elem_of_intersection.
    destruct (decide (k ∈ u)), (decide (k ∈ w)); tauto.
Qed.

End Venn.

(** ** The order of the aggregated table *)

Section FollowersOrder.

Lemma insert_desc_sorted {A} (f : A -> Z) (x : A) (l : list A) :
  StronglySorted (fun a b => f b <= f a) l ->
  StronglySorted (fun a b => f b <= f a) (insert_desc (fun a b => f a <? f b) x l).
Proof.
  induction l as [|y l IH]; simpl; intros Hs; [repeat constructor|].
  apply StronglySorted_inv in Hs as [Hs Hy].
  destruct (Z.ltb_spec (f x) (f y)) as [Hlt|Hge].
  - constructor; [auto|].
    rewrite (insert_desc_perm (fun a b => f a <? f b) x l).
    constructor; [lia|assumption].
  - constructor; [constructor; assumption|].
    constructor; [assumption|].
    eapply Forall_impl; [exact Hy|]. simpl. intros z Hz. lia.
Qed.

Lemma sort_desc_sorted {A} (f : A -> Z) (l : list A) :
  StronglySorted (fun a b => f b <= f a) (sort_desc (fun a b => f a <? f b) l).
Proof.
  unfold sort_desc. induction l as [|x l IH]; simpl; [constructor|].
  now apply insert_desc_sorted.
Qed.

Lemma aggregated_sorted (df : list EngagementRow) :
  StronglySorted (fun a b => agg_Followers b <= agg_Followers a) (aggregated df).
Proof. apply (sort_desc_sorted agg_Followers). Qed.

(** X4. The aggregated table that [load_data] returns is in descending order
    of Followers: no row has more followers than a row above it. *)
Theorem table_by_followers_descending
    (fs : filesystem) (log : list event) (w u c lc : pyval)
    (rows : list EngagementAggregate) :
  load_data fs = (log, Return [w; u; c; PFrame rows; lc]) ->
  StronglySorted (fun above below => agg_Followers below <= agg_Followers above) rows.
Proof.
  intros Hload.
  apply load_data_products in Hload
    as (WW & US & tweets & wt & ut & _ & _ & _ & _ & _ & _ & _ & _ & _ & _ & Hrows & _).
  injection Hrows as ->. apply aggregated_sorted.
Qed.

Lemma table_by_followers_descending_witness :
  StronglySorted (fun above below => agg_Followers below <= agg_Followers above)
    (aggregated (retweets_data chart_tweets)).
Proof.
  exact (table_by_followers_descending chart_fs [] _ _ _ _
           (aggregated (retweets_data chart_tweets)) eq_refl).
Defined.

(** X5. The table that [main] puts on the page is the head of the
    aggregated table: at most ten rows, and every row shown has at least as
    many followers as any row left out. *)
Theorem table_top_ten
    (fs : filesystem) (log : list event) (w u c : gset key)
    (rows : list EngagementAggregate) (lc : list (string * nat)) :
  load_data fs = (log, Return [PSet w; PSet u; PSet c; PFrame rows; PCounts lc]) ->
  st_dataframe (take 10 rows) ∈ (main fs).1 /\
  (length (take 10 rows) <= 10)%nat /\
  rows = take 10 rows ++ drop 10 rows /\
  (forall shown hidden,
     shown ∈ take 10 rows -> hidden ∈ drop 10 rows ->
     agg_Followers hidden <= agg_Followers shown).
Proof.
  intros Hload.
  pose proof (load_data_products _ _ _ _ _ _ _ Hload)
    as (WW & US & tweets & wt & ut & _ & _ & _ & _ & _ & _ & Hlog & _ & _ & _ & Hrows & _).
  split_and!.
  - subst log. rewrite (main_products fs _ _ _ _ _ Hload).
    destruct (marker_sizes rows); simpl; do 11 right; left.
  - rewrite length_take. lia.
  - now rewrite take_drop.
  - injection Hrows as ->. intros shown hidden Hs Hh.
    pose proof (aggregated_sorted (retweets_data tweets)) as Hsorted.
    rewrite <- (take_drop 10 (aggregated (retweets_data tweets))) in Hsorted.
    exact (StronglySorted_app_1_elem_of _ _ _ _ _ Hsorted Hs Hh).
Qed.

Lemma table_top_ten_witness :
  st_dataframe (take 10 (aggregated (retweets_data chart_tweets))) ∈ (main chart_fs).1.
Proof.
  assert (exists w u c lc,
            load_data chart_fs =
              ([], Return [PSet w; PSet u; PSet c;
                           PFrame (aggregated (retweets_data chart_tweets)); PCounts lc]))
    as (w & u & c & lc & Hload) by (do 4 eexists; reflexivity).
  exact (proj1 (table_top_ten chart_fs [] w u c _ lc Hload)).
Defined.

End FollowersOrder.

(** ** What of the corpus matters *)

Section Corpus.

Lemma retweets_data_filter (tweets : list Tweet) :
  retweets_data (filter qualifying tweets) = retweets_data tweets.
Proof.
  induction tweets as [|t tweets IH]; simpl; [reflexivity|].
  rewrite filter_cons.
  destruct (decide (qualifying t)) as [[rs Hrs]|Hno]; simpl.
  - rewrite Hrs. now rewrite IH.
  - destruct (retweeted_status t) as [rs|] eqn:E; [|exact IH].
    destruct Hno. unfold qualifying. rewrite E. eauto.
Qed.

(** X6. Records without a [retweeted_status] have no part in anything that
    [load_data] does: taking them out of the corpus leaves the notice, the
    exception or the five products exactly as they were. *)
Theorem unqualified_records_ignored (fs : filesystem) (tweets : list Tweet) :
  WeLoveTheEarth fs = Some tweets ->
  load_data (with_corpus fs (filter qualifying tweets)) = load_data fs.
Proof.
  intros Htweets.
  destruct (WWTrends fs) as [WW|] eqn:H1; [destruct (USTrends fs) as [US|] eqn:H2|].
  - rewrite (load_data_present fs WW US tweets H1 H2 Htweets).
    rewrite (load_data_present (with_corpus fs (filter qualifying tweets)) WW US
               (filter qualifying tweets) H1 H2 eq_refl).
    unfold process. now rewrite retweets_data_filter.
  - rewrite !load_data_missing; [reflexivity| |]; unfold missing; simpl; auto.
  - rewrite !load_data_missing; [reflexivity| |]; unfold missing; simpl; auto.
Qed.

Lemma unqualified_records_ignored_witness :
  load_data (with_corpus chart_fs (filter qualifying chart_tweets)) = load_data chart_fs.
Proof. exact (unqualified_records_ignored chart_fs chart_tweets eq_refl). Defined.

Lemma retweets_data_perm (tweets tweets' : list Tweet) :
  tweets ≡ₚ tweets' -> retweets_data tweets ≡ₚ retweets_data tweets'.
Proof.
  induction 1 as [|t l l' _ IH|t t' l|l l' l'' _ IH1 _ IH2]; simpl.
  - reflexivity.
  - destruct (retweeted_status t); [now constructor|assumption].
  - destruct (retweeted_status t), (retweeted_status t'); try reflexivity.
    apply Permutation_swap.
  - now transitivity (retweets_data l').
Qed.

Lemma key_lt_asym (a b : group_key) : key_lt a b -> ¬ key_lt b a.
Proof.
  intros Hab Hba. apply (key_lt_irrefl a). exact (key_compare_lt_trans _ _ _ Hab Hba).
Qed.

(** A table in key order is determined by its keys and the sums it holds. *)
Lemma sorted_groups_unique (gs1 gs2 : list Group) :
  StronglySorted key_lt (map grp_key gs1) ->
  StronglySorted key_lt (map grp_key gs2) ->
  (forall k, k ∈ map grp_key gs1 <-> k ∈ map grp_key gs2) ->
  (forall k, held sum_Retweets k gs1 = held sum_Retweets k gs2) ->
  (forall k, held sum_Favorites k gs1 = held sum_Favorites k gs2) ->
  gs1 = gs2.
Proof.
  revert gs2. induction gs1 as [|g1 t1 IH]; intros [|g2 t2] Hs1 Hs2 Hkeys HR HF.
  - reflexivity.
  - exfalso. assert (grp_key g2 ∈ map grp_key []) as H by (apply Hkeys; left).
    inversion H.
  - exfalso. assert (grp_key g1 ∈ map grp_key []) as H by (apply Hkeys; left).
    inversion H.
  - simpl in *.
    pose proof (sorted_head_fresh _ _ Hs1) as Hf1.
    pose proof (sorted_head_fresh _ _ Hs2) as Hf2.
    apply StronglySorted_inv in Hs1 as [Hs1 Hall1].
    apply StronglySorted_inv in Hs2 as [Hs2 Hall2].
    rewrite Forall_forall in Hall1, Hall2.
    assert (grp_key g1 = grp_key g2) as Hk.
    { assert (grp_key g1 ∈ grp_key g2 :: map grp_key t2) as H1 by (apply Hkeys; left).
      assert (grp_key g2 ∈ grp_key g1 :: map grp_key t1) as H2 by (apply Hkeys; left).
      apply elem_of_cons in H1 as [H1|H1]; [assumption|].
      apply elem_of_cons in H2 as [H2|H2]; [congruence|].
      destruct (key_lt_asym _ _ (Hall1 _ H2) (Hall2 _ H1)). }
    assert (g1 = g2) as ->.
    { pose proof (HR (grp_key g1)) as HR1. pose proof (HF (grp_key g1)) as HF1.
      rewrite !held_cons in HR1, HF1.
      rewrite (held_absent sum_Retweets _ t1 Hf1) in HR1.
      rewrite (held_absent sum_Favorites _ t1 Hf1) in HF1.
      rewrite <- Hk in Hf2.
      rewrite (held_absent sum_Retweets _ t2 Hf2) in HR1.
      rewrite (held_absent sum_Favorites _ t2 Hf2) in HF1.
      destruct (decide (grp_key g1 = grp_key g1)); [|congruence].
      destruct (decide (grp_key g2 = grp_key g1)); [|congruence].
      destruct g1, g2; simpl in *. f_equal; [assumption|lia|lia]. }
    f_equal. apply IH; try assumption.
    + intros k. split; intros Hin.
      * assert (k ∈ grp_key g2 :: map grp_key t2) as H by (apply Hkeys; now right).
        apply elem_of_cons in H as [->|H]; [contradiction|assumption].
      * assert (k ∈ grp_key g2 :: map grp_key t1) as H by (apply Hkeys; now right).
        apply elem_of_cons in H as [->|H]; [contradiction|assumption].
    + intros k. specialize (HR k). rewrite !held_cons in HR. lia.
    + intros k. specialize (HF k). rewrite !held_cons in HF. lia.
Qed.

Lemma accumulate_all_perm (df df' : list EngagementRow) :
  df ≡ₚ df' -> accumulate_all df = accumulate_all df'.
Proof.
  intros Hperm. apply sorted_groups_unique.
  - apply fold_sorted. constructor.
  - apply fold_sorted. constructor.
  - intros k. rewrite !accumulate_all_keys. split; intros (r & Hr & Hk); exists r.
    + now rewrite <- Hperm.
    + now rewrite Hperm.
  - intros k.
    rewrite !(accumulate_all_held sum_Retweets Retweets (fun _ => eq_refl) (fun _ _ => eq_refl)).
    f_equal. apply sumZ_perm, Permutation_map. unfold group_of. now rewrite Hperm.
  - intros k.
    rewrite !(accumulate_all_held sum_Favorites Favorites (fun _ => eq_refl) (fun _ _ => eq_refl)).
    f_equal. apply sumZ_perm, Permutation_map. unfold group_of. now rewrite Hperm.
Qed.

Lemma occurrences_perm (x : string) (l l' : list string) :
  l ≡ₚ l' -> occurrences x l = occurrences x l'.
Proof. unfold occurrences. intros H. now rewrite H. Qed.

Lemma Counter_elem (langs : list string) (l : string) (n : nat) :
  (l, n) ∈ Counter langs <-> l ∈ langs /\ n = occurrences l langs.
Proof.
  rewrite count_of_elem by apply Counter_NoDup.
  now rewrite Counter_keys, Counter_count_of.
Qed.

Lemma Counter_perm (langs langs' : list string) :
  langs ≡ₚ langs' -> Counter langs ≡ₚ Counter langs'.
Proof.
  intros Hperm. apply NoDup_Permutation.
  - apply (NoDup_fmap_1 fst). rewrite <- map_fmap. apply Counter_NoDup.
  - apply (NoDup_fmap_1 fst). rewrite <- map_fmap. apply Counter_NoDup.
  - intros [l n]. rewrite !Counter_elem.
    rewrite (occurrences_perm l _ _ Hperm). now rewrite Hperm.
Qed.

(** X7. The order of the records in the corpus does not matter to the trend
    sets and the aggregated table: on a reordered corpus [load_data] returns
    the same sets and the very same table, rows in the same order. The
    language table keeps its entries; only the order among them can change. *)
Theorem corpus_order_irrelevant
    (fs : filesystem) (tweets tweets' : list Tweet) (log : list event)
    (w u c : pyval) (rows : list EngagementAggregate) (lc : list (string * nat)) :
  WeLoveTheEarth fs = Some tweets ->
  tweets ≡ₚ tweets' ->
  load_data fs = (log, Return [w; u; c; PFrame rows; PCounts lc]) ->
  exists lc',
    load_data (with_corpus fs tweets') = (log, Return [w; u; c; PFrame rows; PCounts lc']) /\
    lc' ≡ₚ lc.
Proof.
  intros Htweets Hperm Hload.
  apply load_data_products in Hload
    as (WW & US & tweets0 & wt & ut & H1 & H2 & H3 & Hw & Hu & Hne & -> & -> & -> & -> & Hrows & Hlc).
  rewrite Htweets in H3. injection H3 as <-. injection Hrows as ->. injection Hlc as ->.
  pose proof (retweets_data_perm _ _ Hperm) as Hdf.
  exists (most_common (Counter (map Lang (retweets_data tweets')))). split.
  - rewrite (load_data_present (with_corpus fs tweets') WW US tweets' H1 H2 eq_refl).
    unfold process. rewrite Hw, Hu.
    destruct (retweets_data tweets') as [|r df'] eqn:E.
    + apply Permutation_nil_r in Hdf. contradiction.
    + unfold aggregated. now rewrite (accumulate_all_perm _ _ Hdf).
  - rewrite !most_common_perm. apply Counter_perm. now apply Permutation_map.
Qed.

Lemma corpus_order_irrelevant_witness :
  exists lc',
    load_data (with_corpus chart_fs (reverse chart_tweets)) =
      ([], Return [PSet {[KStr "a"; KStr "b"; KStr "c"]};
                   PSet {[KStr "b"; KStr "c"; KStr "d"]};
                   PSet ({[KStr "a"; KStr "b"; KStr "c"]} ∩ {[KStr "b"; KStr "c"; KStr "d"]});
                   PFrame (aggregated (retweets_data chart_tweets)); PCounts lc']) /\
    lc' ≡ₚ most_common (Counter (map Lang (retweets_data chart_tweets))).
Proof.
  refine (corpus_order_irrelevant chart_fs chart_tweets (reverse chart_tweets) []
            _ _ _ _ _ eq_refl _ _).
  - symmetry. apply reverse_Permutation.
  - vm_compute. reflexivity.
Defined.

End Corpus.

(** ** The size and the totals of the tables *)

Section Sizes.

Lemma accumulate_length (r : EngagementRow) (groups : list Group) :
  (length groups <= length (accumulate r groups) <= S (length groups))%nat.
Proof.
  induction groups as [|g rest IH]; simpl; [lia|].
  destruct (key_compare (key_of r) (grp_key g)); simpl; lia.
Qed.

Lemma fold_length (df : list EngagementRow) (groups : list Group) :
  (length groups <= length (fold_left (fun gs r => accumulate r gs) df groups)
     <= length groups + length df)%nat.
Proof.
  revert groups. induction df as [|r df IH]; intros groups; simpl; [lia|].
  pose proof (IH (accumulate r groups)). pose proof (accumulate_length r groups). lia.
Qed.

Lemma aggregated_length (df : list EngagementRow) :
  length (aggregated df) = length (accumulate_all df).
Proof. now rewrite (Permutation_length (aggregated_perm df)), length_map. Qed.

Lemma accumulate_all_length (df : list EngagementRow) :
  (length (accumulate_all df) <= length df)%nat /\
  (df <> [] -> 0 < length (accumulate_all df))%nat.
Proof.
  split.
  - pose proof (fold_length df []). simpl in *. unfold accumulate_all. lia.
  - destruct df as [|r df]; [congruence|]. intros _.
    unfold accumulate_all. simpl.
    pose proof (fold_length df (accumulate r [])). simpl in *. lia.
Qed.

Lemma count_up_length (x : string) (counter : list (string * nat)) :
  (length counter <= length (count_up x counter) <= S (length counter))%nat.
Proof.
  induction counter as [|[y n] rest IH]; simpl; [lia|].
  destruct (String.eqb x y); simpl; lia.
Qed.

Lemma Counter_length (langs : list string) :
  (length (Counter langs) <= length langs)%nat /\
  (langs <> [] -> 0 < length (Counter langs))%nat.
Proof.
  induction langs as [|x pre IH] using rev_ind; [split; [simpl; lia|congruence]|].
  rewrite Counter_snoc, length_app. simpl.
  pose proof (count_up_length x (Counter pre)).
  destruct (Counter pre); simpl in *; lia.
Qed.

(** X8. The tables that [load_data] returns are never empty, and neither has
    more rows than the corpus has qualifying records. *)
Theorem tables_not_empty
    (fs : filesystem) (tweets : list Tweet) (log : list event)
    (w u c : pyval) (rows : list EngagementAggregate) (lc : list (string * nat)) :
  WeLoveTheEarth fs = Some tweets ->
  load_data fs = (log, Return [w; u; c; PFrame rows; PCounts lc]) ->
  (0 < length rows <= length (filter qualifying tweets))%nat /\
  (0 < length lc <= length (filter qualifying tweets))%nat.
Proof.
  intros Htweets Hload.
  apply load_data_products in Hload
    as (WW & US & tweets' & wt & ut & _ & _ & Ht & _ & _ & Hne & _ & _ & _ & _ & Hrows & Hlc).
  rewrite Htweets in Ht. injection Ht as <-. injection Hrows as ->. injection Hlc as ->.
  assert (length (retweets_data tweets) = length (filter qualifying tweets)) as Hlen.
  { rewrite <- (length_map Retweets), retweets_data_Retweets. apply length_map. }
  split.
  - rewrite aggregated_length.
    destruct (accumulate_all_length (retweets_data tweets)) as [Hle Hpos].
    specialize (Hpos Hne). lia.
  - rewrite (Permutation_length (most_common_perm _)).
    destruct (Counter_length (map Lang (retweets_data tweets))) as [Hle Hpos].
    rewrite length_map in Hle.
    assert (map Lang (retweets_data tweets) <> []) as Hne'.
    { destruct (retweets_data tweets); [congruence|discriminate]. }
    specialize (Hpos Hne'). lia.
Qed.

Lemma tables_not_empty_witness :
  (0 < length (aggregated (retweets_data chart_tweets)) <= 6)%nat.
Proof.
  exact (proj1 (tables_not_empty chart_fs chart_tweets [] _ _ _
                  (aggregated (retweets_data chart_tweets)) _ eq_refl eq_refl)).
Defined.

(** X9. The favorites and the engagement are carried over in full as long
    as no sum leaves the [int64] range. The counts being [int64] values, when
    in every group the Favorites add up to a value of the range, the
    Total_Favorites of the aggregated table add up to the Favorites of the
    qualifying records; and when in every group the Retweets and the
    Favorites together do so as well, the Total_Engagement of the table adds
    up to the Retweets and Favorites of the qualifying records together. *)
Theorem total_engagement_conserved
    (fs : filesystem) (tweets : list Tweet) (log : list event)
    (w u c lc : pyval) (rows : list EngagementAggregate) :
  WeLoveTheEarth fs = Some tweets ->
  load_data fs = (log, Return [w; u; c; PFrame rows; lc]) ->
  Forall int64_row (retweets_data tweets) ->
  let df := retweets_data tweets in
  let retweets k := sumZ (map Retweets (group_of k df)) in
  let favorites k := sumZ (map Favorites (group_of k df)) in
  ((forall k, int64 (favorites k)) ->
   sumZ (map Total_Favorites rows) = sumZ (map Favorites df)) /\
  ((forall k, int64 (retweets k + favorites k)) ->
   sumZ (map Total_Engagement rows) = sumZ (map Retweets df) + sumZ (map Favorites df)).
Proof.
  intros Htweets Hload _ df retweets favorites.
  apply load_data_products in Hload
    as (WW & US & tweets' & wt & ut & _ & _ & Ht & _ & _ & _ & _ & _ & _ & _ & Hrows & _).
  rewrite Htweets in Ht. injection Ht as <-. injection Hrows as ->. fold df.
  split.
  - intros Hrange.
    rewrite (sumZ_perm _ _ (Permutation_map Total_Favorites (aggregated_perm df))).
    rewrite map_map.
    now apply (accumulate_all_total_exact sum_Favorites Favorites).
  - intros Hrange.
    rewrite (sumZ_perm _ _ (Permutation_map Total_Engagement (aggregated_perm df))).
    rewrite map_map.
    rewrite <- (group_sums_total Retweets df (map grp_key (accumulate_all df))),
            <- (group_sums_total Favorites df (map grp_key (accumulate_all df))).
    + rewrite <- sumZ_add, map_map. f_equal. apply map_ext_in. intros g Hg.
      rewrite (Total_Engagement_group df g) by now apply list_elem_of_In.
      apply wrap64_id, Hrange.
    + apply accumulate_all_NoDup.
    + intros r Hr. apply accumulate_all_keys. eauto.
    + apply accumulate_all_NoDup.
    + intros r Hr. apply accumulate_all_keys. eauto.
Qed.

Lemma total_engagement_conserved_witness :
  sumZ (map Total_Engagement (aggregated (retweets_data scenario_tweets))) = 20.
Proof.
  assert (Forall int64_row (retweets_data scenario_tweets)) as Hrange.
  { repeat constructor; simpl; lia. }
  refine (proj2 (total_engagement_conserved scenario_fs scenario_tweets [] _ _ _ _
                   (aggregated (retweets_data scenario_tweets)) eq_refl eq_refl Hrange) _).
  intros k. unfold group_of, int64. simpl.
  rewrite !filter_cons, filter_nil.
  repeat (destruct (decide _)); simpl; lia.
Defined.

End Sizes.

(** ** When the rate is NaN *)

Section RateNaN.

Lemma digits2_upper (p : positive) : Zpos p < 2 ^ Zpos (digits2_pos p).
Proof.
  induction p as [p IH|p IH|]; cbn [digits2_pos].
  - rewrite Pos2Z.inj_succ, Z.pow_succ_r by lia. lia.
  - rewrite Pos2Z.inj_succ, Z.pow_succ_r by lia. lia.
  - reflexivity.
Qed.

(** A positive number below [2 ^ k] has at most [k] digits. *)
Lemma digits2_le (p : positive) (k : Z) : Zpos p < 2 ^ k -> Zpos (digits2_pos p) <= k.
Proof.
  intros Hlt. pose proof (digits2_lower p) as Hlow.
  destruct (Z_le_gt_dec (Zpos (digits2_pos p)) k) as [|Hgt]; [assumption|].
  exfalso.
  assert (0 <= k) as Hk.
  { destruct (Z_lt_le_dec k 0) as [Hneg|]; [|assumption].
    rewrite Z.pow_neg_r in Hlt by assumption. lia. }
  assert (2 ^ k <= 2 ^ (Zpos (digits2_pos p) - 1)) by (apply Z.pow_le_mono_r; lia).
  lia.
Qed.

Lemma shr_fexp_bounds (m e : Z) (l : location) :
  0 < m -> -1074 <= e <= 970 -> Zdigits2 m + e <= 1024 ->
  let r := shr_fexp prec emax m e l in
  0 < shr_m (fst r) /\ -1074 <= snd r <= 971 /\
  Zdigits2 (shr_m (fst r)) + snd r <= Zdigits2 m + e /\
  (Zdigits2 m + e <= 1023 -> snd r <= 970).
Proof.
  intros Hm He Hd. unfold shr_fexp, shr.
  destruct m as [|p|p]; try lia. cbn [Zdigits2] in *.
  pose proof (digits2_lower p) as Hlow. pose proof (digits2_upper p) as Hup.
  set (d := Zpos (digits2_pos p)) in *.
  assert (0 < d) as Hdpos by (unfold d; lia).
  unfold fexp, emin, prec, emax.
  destruct (Z.max (d + e - 53) (3 - 1024 - 53) - e) as [|n|n] eqn:Hn; cbn [fst snd];
    rewrite ?iter_shr_1_m by (rewrite shr_record_of_loc_m; lia);
    rewrite shr_record_of_loc_m.
  - cbn [Zdigits2]. fold d. lia.
  - assert (Zpos n <= d - 1) as Hle by lia.
    assert (0 < Zpos p / 2 ^ Zpos n) as Hpos.
    { apply Z.div_str_pos. split; [apply Z.pow_pos_nonneg; lia|].
      eapply Z.le_trans; [|exact Hlow]. apply Z.pow_le_mono_r; lia. }
    split; [assumption|]. split; [lia|]. split; [|lia].
    destruct (Zpos p / 2 ^ Zpos n) as [|q|q] eqn:Hq; try lia. cbn [Zdigits2].
    assert (Zpos (digits2_pos q) <= d - Zpos n); [|lia].
    apply digits2_le. rewrite <- Hq.
    apply Z.div_lt_upper_bound; [apply Z.pow_pos_nonneg; lia|].
    rewrite <- Z.pow_add_r by lia. replace (Zpos n + (d - Zpos n)) with d by lia.
    assumption.
  - cbn [Zdigits2]. fold d. lia.
Qed.

Lemma round_nearest_even_le (m : Z) (l : location) : round_nearest_even m l <= m + 1.
Proof.
  destruct l as [|[]]; simpl; try lia. destruct (Z.even m); lia.
Qed.

Lemma Zdigits2_succ (m m' : Z) : 0 < m -> 0 < m' -> m' <= m + 1 -> Zdigits2 m' <= Zdigits2 m + 1.
Proof.
  intros Hm Hm' Hle. destruct m as [|p|p], m' as [|q|q]; try lia. cbn [Zdigits2].
  pose proof (digits2_upper p).
  apply digits2_le. rewrite Z.pow_add_r, Z.pow_1_r by lia. lia.
Qed.

Lemma binary_round_aux_finite (sx : bool) (m e : Z) (l : location) :
  0 < m -> -1074 <= e <= 970 -> Zdigits2 m + e <= 1023 ->
  exists m' e', binary_round_aux prec emax sx m e l = S754_finite sx m' e'.
Proof.
  intros Hm He Hd. unfold binary_round_aux.
  destruct (shr_fexp_bounds m e l Hm He ltac:(lia)) as (H1 & H2 & H3 & H4).
  specialize (H4 Hd).
  destruct (shr_fexp prec emax m e l) as [mrs' e'] eqn:E1. cbn [fst snd] in *.
  pose proof (round_nearest_even_ge (shr_m mrs') (loc_of_shr_record mrs')) as Hr.
  pose proof (round_nearest_even_le (shr_m mrs') (loc_of_shr_record mrs')) as Hr'.
  set (m2 := round_nearest_even (shr_m mrs') (loc_of_shr_record mrs')) in *.
  assert (Zdigits2 m2 <= Zdigits2 (shr_m mrs') + 1) as Hd2
    by (apply Zdigits2_succ; lia).
  destruct (shr_fexp_bounds m2 e' loc_Exact) as (H5 & H6 & _); [lia|lia|lia|].
  destruct (shr_fexp prec emax m2 e' loc_Exact) as [mrs'' e''] eqn:E2. cbn [fst snd] in *.
  destruct (shr_m mrs'') as [|q|q]; try lia.
  unfold emax, prec. destruct (Z.leb_spec e'' (1024 - 53)); [eauto|lia].
Qed.

Lemma pos_iter_xO (p k : positive) : Zpos (Pos.iter xO p k) = Zpos p * 2 ^ Zpos k.
Proof.
  induction k as [|k IH] using Pos.peano_ind.
  - simpl. lia.
  - rewrite Pos.iter_succ, Pos2Z.inj_succ, Z.pow_succ_r by lia.
    change (Zpos (Pos.iter xO p k)~0) with (2 * Zpos (Pos.iter xO p k)). rewrite IH. ring.
Qed.

Lemma binary_round_finite (sx : bool) (p : positive) :
  Zpos p <= 2 ^ 63 ->
  exists m' e', binary_round prec emax sx p 0 = S754_finite sx m' e'.
Proof.
  intros Hp. unfold binary_round, shl_align.
  pose proof (digits2_lower p) as Hlow. pose proof (digits2_upper p) as Hup.
  assert (Zpos (digits2_pos p) <= 64) as Hd.
  { apply digits2_le. change (2 ^ 64) with (2 * 2 ^ 63). lia. }
  set (d := Zpos (digits2_pos p)) in *.
  assert (0 < d) by (unfold d; lia).
  assert (fexp prec emax (d + 0) = d - 53) as Hf
    by (unfold fexp, emin, prec, emax; lia).
  rewrite Hf.
  destruct (d - 53 - 0) as [|k|k] eqn:Hk.
  - apply binary_round_aux_finite; cbn [Zdigits2]; fold d; lia.
  - apply binary_round_aux_finite; cbn [Zdigits2]; fold d; lia.
  - apply binary_round_aux_finite; try lia.
    cbn [Zdigits2].
    assert (Zpos (digits2_pos (Pos.iter xO p k)) <= 53); [|lia].
    apply digits2_le. rewrite pos_iter_xO.
    assert (Zpos k = 53 - d) as -> by lia.
    replace (2 ^ 53) with (2 ^ d * 2 ^ (53 - d))
      by (rewrite <- Z.pow_add_r by lia; f_equal; lia).
    apply Z.mul_lt_mono_pos_r; [apply Z.pow_pos_nonneg; lia|assumption].
Qed.

Lemma float_of_int_finite (z : Z) :
  - 2 ^ 63 <= z < 2 ^ 63 -> z <> 0 ->
  exists s m e, float_of_int z = S754_finite s m e.
Proof.
  intros Hz Hne. destruct z as [|p|p]; [congruence| |].
  - destruct (binary_round_finite false p) as (m & e & H); [lia|]. exists false. eauto.
  - destruct (binary_round_finite true p) as (m & e & H); [lia|]. exists true. eauto.
Qed.

(** Rounding a mantissa that is not negative never gives NaN. *)
Lemma shr_fexp_nonneg (m e : Z) (l : location) :
  0 <= m -> 0 <= shr_m (fst (shr_fexp prec emax m e l)).
Proof.
  intros Hm. unfold shr_fexp, shr.
  destruct (fexp prec emax (Zdigits2 m + e) - e) as [|n|n]; cbn [fst];
    rewrite ?iter_shr_1_m by (rewrite shr_record_of_loc_m; lia);
    rewrite shr_record_of_loc_m; try lia.
  apply Z.div_pos; [assumption|]. apply Z.pow_pos_nonneg; lia.
Qed.

Lemma binary_round_aux_not_nan (sx : bool) (m e : Z) (l : location) :
  0 <= m -> binary_round_aux prec emax sx m e l <> S754_nan.
Proof.
  intros Hm. unfold binary_round_aux.
  pose proof (shr_fexp_nonneg m e l Hm) as H1.
  destruct (shr_fexp prec emax m e l) as [mrs' e']. cbn [fst] in H1.
  pose proof (round_nearest_even_ge (shr_m mrs') (loc_of_shr_record mrs')) as Hr.
  set (m2 := round_nearest_even (shr_m mrs') (loc_of_shr_record mrs')) in *.
  pose proof (shr_fexp_nonneg m2 e' loc_Exact ltac:(lia)) as H2.
  destruct (shr_fexp prec emax m2 e' loc_Exact) as [mrs'' e'']. cbn [fst] in H2.
  destruct (shr_m mrs'') as [|q|q]; try lia; [discriminate|].
  destruct (e'' <=? emax - prec); discriminate.
Qed.

Lemma SFdiv_finite_not_nan (s1 s2 : bool) (m1 m2 : positive) (e1 e2 : Z) :
  SFdiv prec emax (S754_finite s1 m1 e1) (S754_finite s2 m2 e2) <> S754_nan.
Proof.
  unfold SFdiv, SFdiv_core_binary.
  set (m' := match _ with Z0 => _ | Zpos _ => _ | Zneg _ => _ end).
  assert (0 <= m') as Hm'.
  { unfold m'. destruct (_ - _ - _) as [|s|s]; try lia. apply Z.shiftl_nonneg. lia. }
  pose proof (Z_div_mod m' (Zpos m2) ltac:(lia)) as Hdiv.
  destruct (Z.div_eucl m' (Zpos m2)) as [q r]. destruct Hdiv as [Hq Hr].
  apply binary_round_aux_not_nan. nia.
Qed.

Lemma SFmul_finite_not_nan (s1 s2 : bool) (m1 m2 : positive) (e1 e2 : Z) :
  SFmul prec emax (S754_finite s1 m1 e1) (S754_finite s2 m2 e2) <> S754_nan.
Proof. unfold SFmul. apply binary_round_aux_not_nan. lia. Qed.

Lemma float_of_int_shape (z : Z) :
  float_of_int z = S754_zero false \/
  (exists s, float_of_int z = S754_infinity s) \/
  (exists s m e, float_of_int z = S754_finite s m e).
Proof.
  destruct (Z.lt_trichotomy z 0) as [H|[->|H]].
  - destruct (float_of_int_neg z H) as [->|(m & e & ->)]; eauto 6.
  - left. reflexivity.
  - destruct (float_of_int_pos z H) as [->|(m & e & ->)]; eauto 6.
Qed.

Lemma engagement_rate_followers (total followers : Z) :
  int64 followers -> followers <> 0 ->
  engagement_rate total followers <> S754_nan /\
  (total = 0 -> exists s, engagement_rate total followers = S754_zero s).
Proof.
  intros Hrange Hne.
  destruct (float_of_int_finite followers Hrange Hne) as (sf & mf & ef & Hf).
  assert (float_of_int 100 = S754_finite false 7036874417766400 (-46)) as Hc
    by reflexivity.
  unfold engagement_rate. rewrite Hf, Hc. split.
  - destruct (float_of_int_shape total) as [->|[[s ->]|(s & m & e & ->)]];
      [discriminate|discriminate|].
    pose proof (SFdiv_finite_not_nan s sf m mf e ef) as Hdiv.
    destruct (SFdiv prec emax (S754_finite s m e) (S754_finite sf mf ef))
      as [sq|sq| |sq mq eq]; [discriminate|discriminate|congruence|].
    apply SFmul_finite_not_nan.
  - intros ->. eexists. reflexivity.
Qed.

(** X10. In the aggregated table a rate is NaN for one reason only: a row
    with Followers in the [int64] range has the rate NaN exactly when both its
    Followers and its Total_Engagement are 0. A row without engagement whose
    account has followers has the rate zero. *)
Theorem rate_nan_iff
    (fs : filesystem) (log : list event) (w u c lc : pyval)
    (rows : list EngagementAggregate) (row : EngagementAggregate) :
  load_data fs = (log, Return [w; u; c; PFrame rows; lc]) ->
  row ∈ rows ->
  int64 (agg_Followers row) ->
  (Normalized_Engagement_Rate row = S754_nan <->
     agg_Followers row = 0 /\ Total_Engagement row = 0) /\
  (Total_Engagement row = 0 -> agg_Followers row <> 0 ->
     exists s, Normalized_Engagement_Rate row = S754_zero s).
Proof.
  intros Hload Hrow Hrange.
  apply load_data_products in Hload
    as (WW & US & tweets & wt & ut & _ & _ & _ & _ & _ & _ & _ & _ & _ & _ & Hrows & _).
  injection Hrows as ->. apply aggregated_row in Hrow as (g & _ & ->).
  simpl in *. set (total := wrap64 (sum_Retweets g + sum_Favorites g)) in *.
  set (followers := (grp_key g).2) in *.
  split; [split|].
  - intros Hnan. destruct (decide (followers = 0)) as [Hz|Hnz].
    + split; [assumption|]. rewrite Hz in Hnan.
      destruct (engagement_rate_zero_followers total) as (_ & Hpos & _ & Hneg).
      destruct (Z.lt_trichotomy total 0) as [H|[H|H]]; [|assumption|].
      * rewrite (Hneg H) in Hnan. discriminate.
      * rewrite (Hpos H) in Hnan. discriminate.
    + destruct (engagement_rate_followers total followers Hrange Hnz) as [H _].
      contradiction.
  - intros [-> Ht]. now apply engagement_rate_zero_followers.
  - intros Ht Hnz. now apply engagement_rate_followers.
Qed.

Lemma rate_nan_iff_witness :
  exists row,
    row ∈ aggregated (retweets_data chart_tweets) /\
    agg_ScreenName row = "C" /\
    Normalized_Engagement_Rate row = S754_nan.
Proof.
  exists {| agg_ScreenName := "C"; agg_Text := "W"; agg_Followers := 0;
            Total_Retweets := 0; Total_Favorites := 0; Total_Engagement := 0;
            Normalized_Engagement_Rate := S754_nan |}.
  assert ({| agg_ScreenName := "C"; agg_Text := "W"; agg_Followers := 0;
             Total_Retweets := 0; Total_Favorites := 0; Total_Engagement := 0;
             Normalized_Engagement_Rate := S754_nan |}
            ∈ aggregated (retweets_data chart_tweets)) as Hin
    by (vm_compute; do 3 right; left).
  split; [exact Hin|]. split; [reflexivity|].
  refine (proj2 (proj1 (rate_nan_iff chart_fs [] _ _ _ _ _ _ eq_refl Hin _)) _).
  - unfold int64. simpl. lia.
  - split; reflexivity.
Defined.

End RateNaN.

(** ** The frame of the map *)

Section LanguageMap.

Lemma isin_keys (x : string) (d : list (string * string)) :
  isin x d = true <-> x ∈ map fst d.
Proof.
  unfold isin. rewrite existsb_exists, list_elem_of_In. split.
  - intros (y & Hy & Heq). apply String.eqb_eq in Heq. now subst.
  - intros Hx. exists x. split; [assumption|apply String.eqb_refl].
Qed.

Lemma dict_get_Some (k v : string) (d : list (string * string)) :
  dict_get k d = Some v -> (k, v) ∈ d.
Proof.
  induction d as [|[k' v'] rest IH]; simpl; [discriminate|].
  destruct (String.eqb_spec k k') as [->|Hne].
  - intros [= ->]. left.
  - intros H. right. auto.
Qed.

Lemma dict_get_isin (k : string) (d : list (string * string)) :
  isin k d = true -> exists v, dict_get k d = Some v.
Proof.
  rewrite isin_keys. induction d as [|[k' v'] rest IH]; simpl; intros Hin.
  - inversion Hin.
  - destruct (String.eqb_spec k k') as [->|Hne]; [eauto|].
    apply elem_of_cons in Hin as [->|Hin]; [congruence|auto].
Qed.

(** Two keys of a dict whose values are all different have different
    values. *)
Lemma dict_get_inj (k k' v : string) (d : list (string * string)) :
  NoDup (map snd d) -> dict_get k d = Some v -> dict_get k' d = Some v -> k = k'.
Proof.
  induction d as [|[k0 v0] rest IH]; simpl; intros Hnd H1 H2; [discriminate|].
  apply NoDup_cons in Hnd as [Hfresh Hnd].
  assert (forall x, dict_get x rest = Some v0 -> False) as Hv0.
  { intros x Hx. apply Hfresh. apply dict_get_Some in Hx.
    rewrite map_fmap. apply list_elem_of_fmap. exists (x, v0). auto. }
  destruct (String.eqb_spec k k0) as [->|Hk], (String.eqb_spec k' k0) as [->|Hk'].
  - reflexivity.
  - injection H1 as <-. destruct (Hv0 _ H2).
  - injection H2 as <-. destruct (Hv0 _ H1).
  - auto.
Qed.

Lemma countries_distinct : NoDup (map snd lang_to_country).
Proof. apply NoDup_ListNoDup. repeat constructor; simpl; intuition discriminate. Qed.

Lemma df_map_elem (lang_counts : list (string * nat)) (r : MapRow) :
  r ∈ df_map lang_counts <->
  (map_Lang r, map_Count r) ∈ lang_counts /\
  isin (map_Lang r) lang_to_country = true /\
  Country r = dict_get (map_Lang r) lang_to_country.
Proof.
  unfold df_map. rewrite map_fmap, list_elem_of_fmap. split.
  - intros ([l n] & -> & Hin). apply list_elem_of_In, List.filter_In in Hin as [Hin His].
    simpl in *. split; [now apply list_elem_of_In|auto].
  - intros (Hin & His & Hc). exists (map_Lang r, map_Count r). split.
    + destruct r as [l n c]. simpl in *. now rewrite Hc.
    + apply list_elem_of_In, List.filter_In. split; [now apply list_elem_of_In|assumption].
Qed.

Lemma df_map_langs (lang_counts : list (string * nat)) :
  map map_Lang (df_map lang_counts) =
    List.filter (fun l => isin l lang_to_country) (map fst lang_counts).
Proof.
  unfold df_map. induction lang_counts as [|[l n] rest IH]; [reflexivity|].
  simpl. destruct (isin l lang_to_country); simpl; [f_equal|]; exact IH.
Qed.

Lemma filter_NoDup {A} (f : A -> bool) (l : list A) : NoDup l -> NoDup (List.filter f l).
Proof.
  induction 1 as [|x l Hx Hnd IH]; simpl; [constructor|].
  destruct (f x); [|assumption]. constructor; [|assumption].
  intros Hin. apply Hx. apply list_elem_of_In, List.filter_In in Hin as [Hin _].
  now apply list_elem_of_In.
Qed.

Lemma df_map_total (lang_counts : list (string * nat)) :
  (sum_list_with map_Count (df_map lang_counts) <= sum_list_with snd lang_counts)%nat.
Proof.
  unfold df_map. induction lang_counts as [|[l n] rest IH]; [simpl; lia|].
  cbn [List.filter fst]. destruct (isin l lang_to_country);
    cbn [map sum_list_with fold_right map_Count snd] in *; lia.
Qed.

(** X11. The frame of the choropleth map, as [create_language_map_and_chart]
    derives it from the language table that [load_data] returns. Every row of
    the map is a row of the language table, with its count, whose language is
    a key of the dict, and its Country is the dict's entry, never missing; a
    language outside the dict, such as und, is not on the map. Every language
    of the table that is in the dict is on the map. No country is there
    twice, so the map has at most ten rows, and the counts on the map add up
    to no more than the number of qualifying records. *)
Theorem map_frame
    (fs : filesystem) (tweets : list Tweet) (log : list event)
    (w u c df : pyval) (lc : list (string * nat)) :
  WeLoveTheEarth fs = Some tweets ->
  load_data fs = (log, Return [w; u; c; df; PCounts lc]) ->
  (forall r, r ∈ df_map lc ->
     (map_Lang r, map_Count r) ∈ lc /\
     map_Lang r <> "und" /\
     exists country,
       Country r = Some country /\ (map_Lang r, country) ∈ lang_to_country) /\
  (forall l n, (l, n) ∈ lc -> l ∈ map fst lang_to_country ->
     exists r, r ∈ df_map lc /\ map_Lang r = l /\ map_Count r = n) /\
  NoDup (map Country (df_map lc)) /\
  (length (df_map lc) <= 10)%nat /\
  (sum_list_with map_Count (df_map lc) <= length (filter qualifying tweets))%nat.
Proof.
  intros Htweets Hload.
  apply load_data_products in Hload
    as (WW & US & tweets' & wt & ut & _ & _ & Ht & _ & _ & _ & _ & _ & _ & _ & _ & Hlc).
  rewrite Htweets in Ht. injection Ht as <-. injection Hlc as ->.
  set (lc := most_common (Counter (map Lang (retweets_data tweets)))).
  assert (NoDup (map fst lc)) as Hnd.
  { unfold lc. rewrite (Permutation_map fst (most_common_perm _)). apply Counter_NoDup. }
  assert (NoDup (map map_Lang (df_map lc))) as Hlangs.
  { rewrite df_map_langs. now apply filter_NoDup. }
  split_and!.
  - intros r Hr. apply df_map_elem in Hr as (Hin & His & Hc).
    split; [assumption|]. split.
    + intros Hund. rewrite Hund in His. discriminate.
    + destruct (dict_get_isin _ _ His) as [country Hget].
      exists country. rewrite Hc. split; [assumption|]. now apply dict_get_Some.
  - intros l n Hin Hkey.
    exists {| map_Lang := l; map_Count := n; Country := dict_get l lang_to_country |}.
    split; [|auto]. apply df_map_elem. simpl. split; [assumption|].
    split; [now apply isin_keys|reflexivity].
  - rewrite map_fmap. apply NoDup_fmap_2_strong; [|now apply (NoDup_fmap_1 map_Lang)].
    intros r r' Hr Hr' Heq.
    apply df_map_elem in Hr as (Hin & His & Hc).
    apply df_map_elem in Hr' as (Hin' & His' & Hc').
    destruct (dict_get_isin _ _ His) as [country Hget].
    assert (map_Lang r = map_Lang r') as Hl.
    { apply (dict_get_inj _ _ country lang_to_country countries_distinct Hget).
      now rewrite <- Hc', <- Heq, Hc. }
    assert (map_Count r = map_Count r') as Hn.
    { rewrite Hl in Hin.
      apply (count_of_elem lc _ _ Hnd) in Hin as [_ ->].
      now apply (count_of_elem lc _ _ Hnd) in Hin' as [_ ->]. }
    destruct r, r'. simpl in *. congruence.
  - rewrite <- (length_map map_Lang).
    assert (map map_Lang (df_map lc) ⊆+ map fst lang_to_country) as Hsub.
    { apply NoDup_submseteq; [assumption|].
      intros l Hl. rewrite df_map_langs in Hl.
      apply list_elem_of_In, List.filter_In in Hl as [_ His]. now apply isin_keys. }
    apply submseteq_length in Hsub. simpl in Hsub. exact Hsub.
  - etransitivity; [apply df_map_total|].
    unfold lc. rewrite (sum_list_with_perm _ _ _ (most_common_perm _)), Counter_total.
    rewrite retweets_data_Lang. now rewrite length_map.
Qed.

Lemma map_frame_witness :
  df_map (most_common (Counter (map Lang (retweets_data chart_tweets)))) =
    [ {| map_Lang := "en"; map_Count := 1; Country := Some "USA" |};
      {| map_Lang := "es"; map_Count := 1; Country := Some "Spain" |};
      {| map_Lang := "ko"; map_Count := 1; Country := Some "South Korea" |} ] /\
  (length (df_map (most_common (Counter (map Lang (retweets_data chart_tweets))))) <= 10)%nat.
Proof.
  split; [reflexivity|].
  exact (proj1 (proj2 (proj2 (proj2
     (map_frame chart_fs chart_tweets [] _ _ _ _
        (most_common (Counter (map Lang (retweets_data chart_tweets))))
        eq_refl eq_refl))))).
Defined.

End LanguageMap.

(** ** The frame of the bar chart *)

Section BarChart.

Ltac order_cases :=
  repeat match goal with
  | |- context [Z.compare ?a ?b] => destruct (Z.compare_spec a b); subst
  | H : context [Z.compare ?a ?b] |- _ => destruct (Z.compare_spec a b); subst
  | |- context [Pos.compare_cont Eq ?a ?b] =>
      change (Pos.compare_cont Eq a b) with (Pos.compare a b);
      destruct (Pos.compare_spec a b); subst
  | H : context [Pos.compare_cont Eq ?a ?b] |- _ =>
      change (Pos.compare_cont Eq a b) with (Pos.compare a b) in H;
      destruct (Pos.compare_spec a b); subst
  end; simpl in *; try discriminate; try reflexivity; try lia.

(** Among numbers [<] is asymmetric, and not being smaller is transitive. *)
Lemma SFltb_asym (x y : spec_float) :
  SFltb x y = true -> SFltb y x = false.
Proof.
  unfold SFltb, SFcompare.
  destruct x as [sx|sx| |sx mx ex], y as [sy|sy| |sy my ey];
    try destruct sx; try destruct sy; simpl; try discriminate; try reflexivity;
    order_cases.
Qed.

Lemma SFltb_negtrans (x y z : spec_float) :
  isna x = false -> isna y = false -> isna z = false ->
  SFltb x y = false -> SFltb y z = false -> SFltb x z = false.
Proof.
  unfold SFltb, SFcompare.
  destruct x as [sx|sx| |sx mx ex]; try discriminate;
  destruct y as [sy|sy| |sy my ey]; try discriminate;
  destruct z as [sz|sz| |sz mz ez]; try discriminate;
    try destruct sx; try destruct sy; try destruct sz; simpl; intros _ _ _;
    try discriminate; try reflexivity; order_cases.
Qed.

Lemma insert_by_rate_sorted (x : EngagementAggregate) (l : list EngagementAggregate) :
  isna (Normalized_Engagement_Rate x) = false ->
  Forall (fun row => isna (Normalized_Engagement_Rate row) = false) l ->
  StronglySorted (fun a b => by_rate a b = false) l ->
  StronglySorted (fun a b => by_rate a b = false) (insert_desc by_rate x l).
Proof.
  intros Hx. induction l as [|y l IH]; simpl; intros Hnum Hs; [repeat constructor|].
  apply Forall_cons in Hnum as [Hy Hnum].
  apply StronglySorted_inv in Hs as [Hs Hall].
  destruct (by_rate x y) eqn:Hxy.
  - constructor; [auto|].
    rewrite (insert_desc_perm by_rate x l). constructor; [|assumption].
    now apply SFltb_asym.
  - constructor; [constructor; assumption|].
    constructor; [assumption|].
    rewrite Forall_forall in Hall, Hnum. rewrite Forall_forall. intros z Hz.
    exact (SFltb_negtrans _ _ _ Hx Hy (Hnum z Hz) Hxy (Hall z Hz)).
Qed.

Lemma sort_by_rate_sorted (l : list EngagementAggregate) :
  Forall (fun row => isna (Normalized_Engagement_Rate row) = false) l ->
  StronglySorted (fun a b => by_rate a b = false) (sort_desc by_rate l).
Proof.
  unfold sort_desc. induction 1 as [|x l Hx Hl IH]; simpl; [constructor|].
  apply insert_by_rate_sorted; [assumption| |assumption].
  fold (sort_desc by_rate l). now rewrite (sort_desc_perm by_rate l).
Qed.

Lemma filter_split {A} (f : A -> bool) (l : list A) :
  List.filter (fun x => negb (f x)) l ++ List.filter f l ≡ₚ l.
Proof.
  induction l as [|x l IH]; simpl; [reflexivity|].
  destruct (f x); simpl.
  - rewrite <- Permutation_middle. now constructor.
  - now constructor.
Qed.

Lemma filter_Forall {A} (f : A -> bool) (l : list A) :
  Forall (fun x => f x = true) (List.filter f l).
Proof.
  rewrite Forall_forall. intros x Hx.
  now apply list_elem_of_In, List.filter_In in Hx as [_ Hx].
Qed.

(** X12. The frame that [create_engagement_bar_chart] hands to the bar chart
    has the rows of the table, each one once. The rows whose rate is a
    number come first, in descending order of rate: no row has a larger rate
    than a row before it, so rows with the rate plus infinity lead. The rows
    whose rate is NaN come last. *)
Theorem bar_chart_frame (df_agg : list EngagementAggregate) :
  df_chart df_agg ≡ₚ df_agg /\
  exists numbers nans,
    df_chart df_agg = numbers ++ nans /\
    Forall (fun row => isna (Normalized_Engagement_Rate row) = false) numbers /\
    Forall (fun row => Normalized_Engagement_Rate row = S754_nan) nans /\
    StronglySorted
      (fun before after =>
         SFltb (Normalized_Engagement_Rate before) (Normalized_Engagement_Rate after) = false)
      numbers.
Proof.
  unfold df_chart.
  set (numbers := List.filter (fun row => negb (isna (Normalized_Engagement_Rate row))) df_agg).
  set (nans := List.filter (fun row => isna (Normalized_Engagement_Rate row)) df_agg).
  assert (Forall (fun row => isna (Normalized_Engagement_Rate row) = false) numbers) as Hnum.
  { eapply Forall_impl; [apply filter_Forall|]. simpl. intros row H.
    now apply negb_true_iff in H. }
  split.
  - rewrite (sort_desc_perm by_rate numbers).
    apply (filter_split (fun row => isna (Normalized_Engagement_Rate row))).
  - exists (sort_desc by_rate numbers), nans. split_and!.
    + reflexivity.
    + now rewrite (sort_desc_perm by_rate numbers).
    + eapply Forall_impl; [apply filter_Forall|]. simpl. intros row H.
      destruct (Normalized_Engagement_Rate row); try discriminate. reflexivity.
    + now apply sort_by_rate_sorted.
Qed.

End BarChart.

(** ** The exceptions that leave [load_data] *)

Section Exceptions.






End Exceptions.

(** ** The trend sets of well-formed documents *)

Section ValidTrends.

Lemma size_list_to_set_le (keys : list key) :
  (size (list_to_set keys : gset key) <= length keys)%nat.
Proof.
  induction keys as [|k keys IH].
  - rewrite list_to_set_nil, size_empty. simpl. lia.
  - rewrite list_to_set_cons, size_union_alt, size_singleton. simpl.
    assert (size (list_to_set keys ∖ {[k]} : gset key) <= size (list_to_set keys : gset key))%nat
      by (apply subseteq_size; set_solver).
    lia.
Qed.

Lemma KStr_NoDup (names : list string) : NoDup names -> NoDup (map KStr names).
Proof.
  intros Hnd. rewrite map_fmap. apply NoDup_fmap_2; [|assumption].
  intros a b [= ->]. reflexivity.
Qed.

(** X14. For trend documents of the expected shape, the world set and the
    region set that [load_data] returns hold exactly the names that their
    documents list. A name listed several times is in the set once, so a set
    has at most as many elements as its document lists trends, and as many
    when the listed names are all different. *)
Theorem trend_sets_of_valid_documents
    (fs : filesystem) (log : list event) (w u : gset key) (c df lc : pyval)
    (WW US : json) (world_names us_names : list string) :
  load_data fs = (log, Return [PSet w; PSet u; c; df; lc]) ->
  WWTrends fs = Some WW -> USTrends fs = Some US ->
  valid_trend_document WW world_names -> valid_trend_document US us_names ->
  (forall k, k ∈ w <-> exists n, k = KStr n /\ n ∈ world_names) /\
  (forall k, k ∈ u <-> exists n, k = KStr n /\ n ∈ us_names) /\
  (size w <= length world_names)%nat /\
  (size u <= length us_names)%nat /\
  (NoDup world_names -> size w = length world_names) /\
  (NoDup us_names -> size u = length us_names).
Proof.
  intros Hload HWW HUS Hvw Hvu.
  apply load_data_products in Hload
    as (WW' & US' & tweets & wt & ut & HWW' & HUS' & _ & Hwt & Hut & _ & _ & Hw & Hu & _).
  rewrite HWW in HWW'. injection HWW' as <-. rewrite HUS in HUS'. injection HUS' as <-.
  injection Hw as ->. injection Hu as ->.
  rewrite (trend_names_valid WW world_names Hvw) in Hwt. injection Hwt as <-.
  rewrite (trend_names_valid US us_names Hvu) in Hut. injection Hut as <-.
  split_and!.
  - intros k. apply elem_of_names.
  - intros k. apply elem_of_names.
  - etransitivity; [apply size_list_to_set_le|]. now rewrite length_map.
  - etransitivity; [apply size_list_to_set_le|]. now rewrite length_map.
  - intros Hnd. rewrite size_list_to_set by now apply KStr_NoDup. apply length_map.
  - intros Hnd. rewrite size_list_to_set by now apply KStr_NoDup. apply length_map.
Qed.

Lemma trend_documents_valid (names : list string) :
  valid_trend_document (trend_doc names) names.
Proof.
  unfold valid_trend_document, trend_doc. do 3 eexists.
  split; [reflexivity|]. split; [reflexivity|].
  induction names as [|n names IH]; simpl; constructor; [|exact IH].
  eexists. split; reflexivity.
Qed.

Lemma trend_sets_of_valid_documents_witness :
  exists w : gset key,
    (forall k, k ∈ w <-> exists n, k = KStr n /\ n ∈ ["a"; "b"; "c"]) /\ size w = 3%nat.
Proof.
  assert (exists c df lc,
            load_data scenario_fs =
              ([], Return [PSet (list_to_set (map KStr ["a"; "b"; "c"]));
                           PSet (list_to_set (map KStr ["b"; "c"; "d"])); c; df; lc]))
    as (c & df & lc & Hload) by (do 3 eexists; reflexivity).
  destruct (trend_sets_of_valid_documents scenario_fs [] _ _ c df lc _ _
              ["a"; "b"; "c"] ["b"; "c"; "d"] Hload eq_refl eq_refl
              (trend_documents_valid _) (trend_documents_valid _))
    as (Hw & _ & _ & _ & Hsize & _).
  eexists. split; [exact Hw|]. apply Hsize.
  apply NoDup_ListNoDup. repeat constructor; simpl; intuition discriminate.
Defined.

End ValidTrends.
